(** * Timeline layout engine: event packer, unavailable-hours blocks, segmenter

    A shallow embedding of [src/timeline/Packer.ts] and of the multi-day
    splitting helper [createEventSegments], with the properties of the
    layout engine proved over it.

    Modelling conventions, shared by the whole development.

    - An instant (what a [Date] or an [XDate] of the source holds) is the
      integer number of milliseconds on the local time line.  Days have a
      fixed length of 24 hours: daylight-saving shifts are outside the model.
    - The [start] and [end] of an event of the packer are kept as the source
      has them, a timestamp string or a [Date] object, and are compared
      unconverted, as the source compares them (module [Timestamp]).
    - A JavaScript number that carries pixels or hours is an exact rational
      ([Q]); rounding of IEEE doubles is outside the model.  Where the source
      can divide by zero the result is an [option Q], [None] standing for a
      non-finite number.
    - A property that may be [undefined] is an [option]; relational operators
      on it follow JavaScript: [undefined] converts to NaN and every
      comparison with NaN is false. *)

From Stdlib Require Import String.
From Stdlib Require Import ZArith QArith Qminmax Lqa List Bool Lia.
From Stdlib Require Import Permutation Sorted.
From Stdlib Require Import OrderedTypeEx.
From Equations Require Import Equations.
Import ListNotations.

Set Implicit Arguments.

(** ** JavaScript relational operators on [number | undefined] *)

Module JS.

Definition lt (a b : option Z) : bool :=
  match a, b with
  | Some x, Some y => (x <? y)%Z
  | _, _ => false
  end.

Definition gt (a b : option Z) : bool := lt b a.

Definition le (a b : option Z) : bool :=
  match a, b with
  | Some x, Some y => (x <=? y)%Z
  | _, _ => false
  end.

Definition ge (a b : option Z) : bool := le b a.

(** [xs.forEach((x, i) => ...)] and [xs.map((x, i) => ...)] see each
    element together with its position. *)
Definition entries {A : Type} (xs : list A) : list (nat * A) :=
  combine (seq 0 (length xs)) xs.

End JS.

(** ** Local time *)

Module LocalTime.

Definition msPerHour : Z := 60 * 60 * 1000.
Definition msPerDay : Z := 24 * msPerHour.

(** [d.setHours(0, 0, 0, 0)], [XDate.clearTime()] *)
Definition startOfDay (t : Z) : Z := (t - t mod msPerDay)%Z.

(** [d.setHours(23, 59, 59, 999)] *)
Definition endOfDay (t : Z) : Z := (startOfDay t + msPerDay - 1)%Z.

(** [d.setDate(d.getDate() + 1)] *)
Definition nextDay (t : Z) : Z := (t + msPerDay)%Z.

(** [XDate.addHours(n)] *)
Definition addHours (t n : Z) : Z := (t + n * msPerHour)%Z.

(** [a.diffHours(b)]: the hours from [a] to [b], fractional. *)
Definition diffHours (a b : Z) : Q := inject_Z (b - a) / inject_Z msPerHour.

End LocalTime.

(** ** Timestamps as the packer meets them *)

Module Timestamp.

(** The value of a [start] or [end] property: a timestamp string, here with
    the instant [XDate] and [Date] read from it, or a [Date] object.  A
    timestamp string is neither empty nor a numeric literal. *)
Inductive t : Type :=
| Text (raw : string) (instant : Z)
| DateObject (instant : Z).

(** [new XDate(x)], [new Date(x).getTime()] *)
Definition instantOf (x : t) : Z :=
  match x with
  | Text _ instant => instant
  | DateObject instant => instant
  end.

(** [a < b] on two such values, either of which may be [undefined]: two
    strings are compared as strings, unit by unit; two [Date] objects by
    their time values; a [Date] and a timestamp string never compare, the
    string converting to NaN, nor does [undefined] with anything. *)
Definition lt (a b : option t) : bool :=
  match a, b with
  | Some (Text x _), Some (Text y _) => String.ltb x y
  | Some (DateObject x), Some (DateObject y) => (x <? y)%Z
  | _, _ => false
  end.

Definition gt (a b : option t) : bool := lt b a.

(** [a <= b] *)
Definition le (a b : option t) : bool :=
  match a, b with
  | Some (Text x _), Some (Text y _) => String.leb x y
  | Some (DateObject x), Some (DateObject y) => (x <=? y)%Z
  | _, _ => false
  end.

Definition ge (a b : option t) : bool := le b a.

(** The comparisons of [x] with [y] are those of their instants. *)
Definition agree (x y : t) : Prop :=
  lt (Some x) (Some y) = (instantOf x <? instantOf y)%Z /\
  le (Some x) (Some y) = (instantOf x <=? instantOf y)%Z.

End Timestamp.

(** ** Packer.ts *)

Module Packer.

(** The event as the packer reads it: [start] is read unconditionally,
    [end] is tested for presence by [buildEvent]; every other own property
    is passed through untouched. *)
Record Event : Type := mkEvent {
  start : Timestamp.t;
  end_ : option Timestamp.t;
  props : list (string * string)
}.

(** [PartialPackedEvent = Event & {index: number}] *)
Record PartialPackedEvent : Type := mkPartial {
  event : Event;
  index : nat
}.

Record PopulateOptions : Type := mkPopulateOptions {
  screenWidth : option Q;
  dayStart : option Q;
  hourBlockHeight : option Q;
  overlapEventsSpacing : option Q;
  rightEdgeSpacing : option Q
}.

Record PackedEvent : Type := mkPacked {
  source : PartialPackedEvent;
  top : Q;
  height : Q;
  width : Q;
  left : Q;
  zIndex : Z
}.

Definition HOUR_BLOCK_HEIGHT : Q := 100.
Definition RIGHT_EDGE_SPACING : Q := 10.

Definition default {A : Type} (o : option A) (d : A) : A :=
  match o with Some a => a | None => d end.

Definition isEventContained (eventA eventB : Event) : bool :=
  Timestamp.ge (Some (start eventA)) (Some (start eventB))
  && Timestamp.le (end_ eventA) (end_ eventB).

(** [None] is the NaN the source gets from [new Date(undefined)]. *)
Definition getEventDuration (e : Event) : option Z :=
  match end_ e with
  | Some t => Some (Timestamp.instantOf t - Timestamp.instantOf (start e))%Z
  | None => None
  end.

Definition buildEvent (ev : PartialPackedEvent) (left width : Q)
    (options : PopulateOptions) (zIndex : Z) : PackedEvent :=
  let dayStart := default (dayStart options) 0 in
  let hourBlockHeight := default (hourBlockHeight options) HOUR_BLOCK_HEIGHT in
  let startTime := Timestamp.instantOf (start (event ev)) in
  let endTime :=
    match end_ (event ev) with
    | Some t => Timestamp.instantOf t
    | None => LocalTime.addHours startTime 1
    end in
  let dayStartTime := LocalTime.startOfDay startTime in
  {| source := ev;
     top := (LocalTime.diffHours dayStartTime startTime - dayStart) * hourBlockHeight;
     height := LocalTime.diffHours startTime endTime * hourBlockHeight;
     width := width;
     left := left;
     zIndex := zIndex |}.

Definition hasCollision (a b : Event) : bool :=
  Timestamp.gt (end_ a) (Some (start b))
  && Timestamp.lt (Some (start a)) (end_ b).

Definition Column : Type := list PartialPackedEvent.

(** The [for] loop of [calcColumnSpan], over the columns to the right of
    [columnIndex]. *)
Fixpoint spanLoop (ev : Event) (colSpan : nat) (rest : list Column) : nat :=
  match rest with
  | [] => colSpan
  | column :: rest' =>
      if existsb (fun e => hasCollision ev (event e)) column
      then colSpan
      else spanLoop ev (S colSpan) rest'
  end.

Definition calcColumnSpan (ev : Event) (columnIndex : nat)
    (columns : list Column) : nat :=
  spanLoop ev 1 (skipn (S columnIndex) columns).

(** An entry of [eventsInGroup]: [{event, left, width, duration,
    columnIndex}]. *)
Record EventInfo : Type := mkInfo {
  info_event : PartialPackedEvent;
  info_left : Q;
  info_width : Q;
  info_duration : option Z;
  info_columnIndex : nat
}.

Definition natQ (n : nat) : Q := inject_Z (Z.of_nat n).

Section WithScreen.

(** [constants.screenWidth] of [../commons/constants], the width of the
    device window. *)
Variable constants_screenWidth : Q.

Definition usableWidth (options : PopulateOptions) : Q :=
  default (screenWidth options) constants_screenWidth
  - default (rightEdgeSpacing options) RIGHT_EDGE_SPACING.

(** First pass of [packOverlappingEventGroup]. *)
Definition eventsInGroup (columns : list Column)
    (options : PopulateOptions) : list EventInfo :=
  flat_map
    (fun '(columnIndex, column) =>
       map (fun ev =>
              let totalWidth := usableWidth options in
              let columnSpan := calcColumnSpan (event ev) columnIndex columns in
              let eventLeft :=
                (natQ columnIndex / natQ (length columns)) * totalWidth in
              let eventWidth :=
                totalWidth * (natQ columnSpan / natQ (length columns)) in
              {| info_event := ev;
                 info_left := eventLeft;
                 info_width := eventWidth;
                 info_duration := getEventDuration (event ev);
                 info_columnIndex := columnIndex |})
           column)
    (JS.entries columns).

(** The inner [forEach] of the second pass: 10 for every other entry of
    the group that contains this one and is not shorter. *)
Definition containmentBoost (infos : list EventInfo) (index : nat)
    (eventInfo : EventInfo) : Z :=
  fold_left
    (fun zIndex '(otherIndex, otherEventInfo) =>
       if negb (index =? otherIndex)%nat
          && isEventContained (event (info_event eventInfo))
                              (event (info_event otherEventInfo))
       then
         if JS.le (info_duration eventInfo) (info_duration otherEventInfo)
         then (zIndex + 10)%Z
         else zIndex
       else zIndex)
    (JS.entries infos) 0%Z.

Definition calcZIndex (infos : list EventInfo) (index : nat)
    (eventInfo : EventInfo) : Z :=
  let zIndex := containmentBoost infos index eventInfo in
  if JS.lt (info_duration eventInfo) (Some (60 * 60 * 1000)%Z)
  then (zIndex + 5)%Z
  else zIndex.

(** The rectangles one call of [packOverlappingEventGroup] pushes. *)
Definition packedGroup (columns : list Column)
    (options : PopulateOptions) : list PackedEvent :=
  let infos := eventsInGroup columns options in
  map (fun '(index, eventInfo) =>
         buildEvent (info_event eventInfo) (info_left eventInfo)
           (info_width eventInfo) options (calcZIndex infos index eventInfo))
      (JS.entries infos).

Definition packOverlappingEventGroup (columns : list Column)
    (calculatedEvents : list PackedEvent) (options : PopulateOptions)
    : list PackedEvent :=
  calculatedEvents ++ packedGroup columns options.

(** The comparator handed to [Array.prototype.sort]. *)
Definition compareEvents (a b : Event) : Z :=
  if Timestamp.lt (Some (start a)) (Some (start b)) then (-1)%Z
  else if Timestamp.gt (Some (start a)) (Some (start b)) then 1%Z
  else
    let aDuration := getEventDuration a in
    let bDuration := getEventDuration b in
    if JS.lt aDuration bDuration then (-1)%Z
    else if JS.gt aDuration bDuration then 1%Z
    else if Timestamp.lt (end_ a) (end_ b) then (-1)%Z
    else if Timestamp.gt (end_ a) (end_ b) then 1%Z
    else 0%Z.

(** [Array.prototype.sort].  The sort is stable, and where the comparator
    is consistent on the array the language fixes its result: earlier
    elements compare [<= 0] with later ones, and elements that tie keep
    their input order.  The stable insertion sort computes that
    arrangement.  Where the comparator is not consistent (it can fail to
    be with end-less events, or with strings next to [Date] objects) the
    order is the engine's choice among the permutations of the array;
    [populateEventsOf] and [flushedGroupsOf] take the sorted array as
    they find it, and the properties of the loop are proved of them. *)
Fixpoint sortInsert (x : PartialPackedEvent) (l : list PartialPackedEvent)
    : list PartialPackedEvent :=
  match l with
  | [] => [x]
  | y :: l' =>
      if (compareEvents (event x) (event y) <=? 0)%Z
      then x :: y :: l'
      else y :: sortInsert x l'
  end.

Definition sortEvents (l : list PartialPackedEvent) : list PartialPackedEvent :=
  fold_right sortInsert [] l.

(** [col[col.length - 1]]; a column is created with one event and only
    grows, so the fallback [ev] is never read (lemmas
    [columns_nonempty] and [lastOf_member]). *)
Definition lastOf (col : Column) (ev : PartialPackedEvent) : PartialPackedEvent :=
  last col ev.

(** The placement loop of [populateEvents], with the new column opened
    when no column took the event. *)
Fixpoint placeEvent (ev : PartialPackedEvent) (columns : list Column)
    : list Column :=
  match columns with
  | [] => [[ev]]
  | col :: rest =>
      if negb (hasCollision (event (lastOf col ev)) (event ev))
      then (col ++ [ev]) :: rest
      else col :: placeEvent ev rest
  end.

(** State of the [forEach] of [populateEvents].  [lastEnd] is [null]
    ([None]), or the [end] of an event, itself possibly [undefined].
    The accumulator [A] is what [packOverlappingEventGroup] writes to. *)
Record LoopState (A : Type) : Type := mkState {
  lastEnd : option (option Timestamp.t);
  columns : list Column;
  calculated : A
}.

Section Loop.

Variable A : Type.
(** what flushing a group does to the accumulator *)
Variable flush : list Column -> A -> A.

Definition loopStep (st : LoopState A) (ev : PartialPackedEvent)
    : LoopState A :=
  let st1 :=
    match lastEnd st with
    | Some le =>
        if Timestamp.ge (Some (start (event ev))) le
        then {| lastEnd := None;
                columns := [];
                calculated := flush (columns st) (calculated st) |}
        else st
    | None => st
    end in
  {| lastEnd :=
       match lastEnd st1 with
       | None => Some (end_ (event ev))
       | Some le =>
           if Timestamp.gt (end_ (event ev)) le
           then Some (end_ (event ev))
           else Some le
       end;
     columns := placeEvent ev (columns st1);
     calculated := calculated st1 |}.

Definition indexEvents (_events : list Event) : list PartialPackedEvent :=
  map (fun '(index, ev) => {| event := ev; index := index |})
      (JS.entries _events).

(** The [forEach] of [populateEvents] and the flush of the last group, on
    the array [sorted] that the sort has left. *)
Definition runLoop (sorted : list PartialPackedEvent)
    : LoopState A -> LoopState A :=
  fun init => fold_left loopStep sorted init.

Definition populateSorted (sorted : list PartialPackedEvent) (empty : A) : A :=
  let st := runLoop sorted
              {| lastEnd := None; columns := []; calculated := empty |} in
  if (0 <? length (columns st))%nat
  then flush (columns st) (calculated st)
  else calculated st.

Definition populate (_events : list Event) (empty : A) : A :=
  populateSorted (sortEvents (indexEvents _events)) empty.

End Loop.

(** [populateEvents] from the sorted array on. *)
Definition populateEventsOf (sorted : list PartialPackedEvent)
    (populateOptions : PopulateOptions) : list PackedEvent :=
  populateSorted
    (fun columns calculatedEvents =>
       packOverlappingEventGroup columns calculatedEvents populateOptions)
    sorted [].

Definition populateEvents (_events : list Event)
    (populateOptions : PopulateOptions) : list PackedEvent :=
  populateEventsOf (sortEvents (indexEvents _events)) populateOptions.

(** The overlap groups [populateEvents] hands to
    [packOverlappingEventGroup], in the order of the calls: the same loop,
    with a flush that records its [columns] argument. *)
Definition recordGroup (columns : list Column)
    (groups : list (list Column)) : list (list Column) :=
  groups ++ [columns].

Definition flushedGroupsOf (sorted : list PartialPackedEvent)
    : list (list Column) :=
  populateSorted recordGroup sorted [].

Definition flushedGroups (_events : list Event) : list (list Column) :=
  flushedGroupsOf (sortEvents (indexEvents _events)).

End WithScreen.

(** *** Predicates the properties of the packer are stated with *)

Local Open Scope Z_scope.

(** The instant at which an event ends, when it has an end. *)
Definition endInstant (e : Event) : option Z :=
  option_map Timestamp.instantOf (end_ e).

Definition startInstant (e : Event) : Z := Timestamp.instantOf (start e).

(** An event with both ends of its range, in order. *)
Definition wellFormed (e : Event) : Prop :=
  match endInstant e with
  | Some t => startInstant e <= t
  | None => False
  end.

(** The timestamps of an event. *)
Definition stamps (e : Event) : list Timestamp.t :=
  start e :: match end_ e with Some x => [x] | None => [] end.

(** The timestamps of the two events compare as their instants do: so it
    is among [Date] objects, and among timestamp strings of one format that
    sorts as time does. *)
Definition comparable (a b : Event) : Prop :=
  forall x y, In x (stamps a) -> In y (stamps b) -> Timestamp.agree x y.

Definition allComparable (evs : list Event) : Prop :=
  forall a b, In a evs -> In b evs -> comparable a b.

(** The tests of the packer taken on the instants.  The code's own tests
    compute these when the timestamps compare as their instants do. *)
Definition collide (a b : Event) : bool :=
  JS.gt (endInstant a) (Some (startInstant b))
  && JS.lt (Some (startInstant a)) (endInstant b).

Definition compareInstants (a b : Event) : Z :=
  if startInstant a <? startInstant b then -1
  else if startInstant b <? startInstant a then 1
  else
    if JS.lt (getEventDuration a) (getEventDuration b) then -1
    else if JS.gt (getEventDuration a) (getEventDuration b) then 1
    else if JS.lt (endInstant a) (endInstant b) then -1
    else if JS.gt (endInstant a) (endInstant b) then 1
    else 0.

(** The order the comparator induces on well-formed comparable events: by
    start, then by end (with equal starts the shorter event ends first). *)
Definition precedes (a b : Event) : Prop :=
  startInstant a < startInstant b \/
  (startInstant a = startInstant b /\ JS.le (endInstant a) (endInstant b) = true).

Definition precedesP (a b : PartialPackedEvent) : Prop :=
  precedes (event a) (event b).

(** An entry of the loop whose event is well formed and one of [evs]. *)
Definition usable (evs : list Event) (a : PartialPackedEvent) : Prop :=
  wellFormed (event a) /\ In (event a) evs.

(** [a] is over when [b] begins. *)
Definition endsBefore (a b : PartialPackedEvent) : Prop :=
  JS.le (endInstant (event a)) (Some (startInstant (event b))) = true.

Definition chain (col : Column) : Prop := StronglySorted endsBefore col.

(** What the loop keeps true of its open columns while [rest] is still to
    be placed. *)
Definition columnsReady (evs : list Event) (cols : list Column)
    (rest : list PartialPackedEvent) : Prop :=
  Forall chain cols /\
  forall col e, In col cols -> In e col ->
    usable evs e /\ Forall (precedesP e) rest.

(** The arrangement a stable sort leaves: in comparator order, and in
    input order where the comparator ties. *)
Definition inOrder (a b : PartialPackedEvent) : Prop :=
  compareEvents (event a) (event b) < 0 \/
  (compareEvents (event a) (event b) = 0 /\ (index a <= index b)%nat).






End Packer.

(** ** Packer.ts: unavailable hours *)

Module Blocks.

Record UnavailableHours : Type := mkHours {
  start : Q;
  end_ : Q
}.

Record UnavailableHoursOptions : Type := mkOptions {
  hourBlockHeight : option Q;
  dayStart : option Q;
  dayEnd : option Q
}.

(** The rectangle of an unavailable range.  [top] is a quotient by
    [dayEnd - dayStart]: [None] is the non-finite number the source gets
    when the two are equal. *)
Record Block : Type := mkBlock {
  top : option Q;
  height : Q
}.

(** What a call leaves on the console besides its value. *)
Definition Console (A : Type) : Type := (A * list string)%type.

Definition ret {A : Type} (a : A) : Console A := (a, []).

Definition bind {A B : Type} (m : Console A) (f : A -> Console B) : Console B :=
  let (a, out1) := m in
  let (b, out2) := f a in
  (b, out1 ++ out2).

Definition console_error (message : string) : Console unit := (tt, [message]).

Notation "m ;; k" := (bind m (fun _ => k)) (at level 61, right associativity).

Fixpoint mapM {A B : Type} (f : A -> Console B) (l : list A) : Console (list B) :=
  match l with
  | [] => ret []
  | x :: l' => bind (f x) (fun y => bind (mapM f l') (fun ys => ret (y :: ys)))
  end.

(** [xs.filter(Boolean)] on an array of objects and [undefined]. *)
Fixpoint filterBoolean {A : Type} (l : list (option A)) : list A :=
  match l with
  | [] => []
  | Some a :: l' => a :: filterBoolean l'
  | None :: l' => filterBoolean l'
  end.

(** lodash [inRange(number, start, end)]:
    [number >= Math.min(start, end) && number < Math.max(start, end)] *)
Definition inRange (number start end_ : Q) : bool :=
  Qle_bool (Qmin start end_) number && negb (Qle_bool (Qmax start end_) number).

Definition numDiv (a b : Q) : option Q :=
  if Qeq_bool b 0 then None else Some (a / b).

Definition numMul (a : option Q) (b : Q) : option Q :=
  match a with Some x => Some (x * b) | None => None end.

Definition invalidHours : string :=
  "Calendar Timeline unavailableHours is invalid. Hours should be between 0 and 24".

Definition invalidOrder : string :=
  "Calendar Timeline availableHours is invalid. start hour should be earlier than end hour".

Definition withDefault {A : Type} (o : option A) (d : A) : A :=
  match o with Some a => a | None => d end.

(** The callback of the [map] of [buildUnavailableHoursBlocks]. *)
Definition buildBlock (hourBlockHeight dayStart dayEnd : Q)
    (hours : UnavailableHours) : Console (option Block) :=
  let totalDayHours := dayEnd - dayStart in
  let totalDayHeight := (dayEnd - dayStart) * hourBlockHeight in
  if negb (inRange (start hours) 0 25) || negb (inRange (end_ hours) 0 25)
  then console_error invalidHours ;; ret None
  else if Qle_bool (end_ hours) (start hours)
  then console_error invalidOrder ;; ret None
  else
    let startFixed := Qmax (start hours) dayStart in
    let endFixed := Qmin (end_ hours) dayEnd in
    ret (Some {| top := numMul (numDiv (startFixed - dayStart) totalDayHours)
                               totalDayHeight;
                 height := (endFixed - startFixed) * hourBlockHeight |}).

Definition buildUnavailableHoursBlocks
    (unavailableHours : option (list UnavailableHours))
    (options : option UnavailableHoursOptions) : Console (list Block) :=
  let options := withDefault options (mkOptions None None None) in
  let hourBlockHeight := withDefault (hourBlockHeight options) Packer.HOUR_BLOCK_HEIGHT in
  let dayStart := withDefault (dayStart options) 0 in
  let dayEnd := withDefault (dayEnd options) 24 in
  bind (mapM (buildBlock hourBlockHeight dayStart dayEnd)
             (withDefault unavailableHours []))
       (fun blocks => ret (filterBoolean blocks)).

(** *** The validation, as the specification words it *)

(** [start] and [end] lie in [0, 25) and [start < end]. *)
Definition valid (hours : UnavailableHours) : Prop :=
  (0 <= start hours /\ start hours < 25) /\
  (0 <= end_ hours /\ end_ hours < 25) /\
  start hours < end_ hours.

Definition validb (hours : UnavailableHours) : bool :=
  (Qle_bool 0 (start hours) && negb (Qle_bool 25 (start hours)))
  && (Qle_bool 0 (end_ hours) && negb (Qle_bool 25 (end_ hours)))
  && negb (Qle_bool (end_ hours) (start hours)).

(** The diagnostic a dropped range leaves. *)
Definition diagnostic (hours : UnavailableHours) : string :=
  if negb (inRange (start hours) 0 25) || negb (inRange (end_ hours) 0 25)
  then invalidHours else invalidOrder.

(** The rectangle of a range by the formulas of the specification. *)
Definition blockOf (hourBlockHeight dayStart dayEnd : Q)
    (hours : UnavailableHours) : Block :=
  {| top :=
       numMul (numDiv (Qmax (start hours) dayStart - dayStart) (dayEnd - dayStart))
              ((dayEnd - dayStart) * hourBlockHeight);
     height := (Qmin (end_ hours) dayEnd - Qmax (start hours) dayStart)
               * hourBlockHeight |}.

End Blocks.

(** ** utils: createEventSegments *)

Module Utils.

Local Open Scope Z_scope.

(** The event as the segmenter reads it: both [start] and [end] are tested
    for presence before use. *)
Record Event : Type := mkEvent {
  start : option Z;
  end_ : option Z;
  props : list (string * string)
}.

(** ['start' | 'middle' | 'end'] *)
Inductive DayType : Type := DayStart | DayMiddle | DayEnd.

Section WithDates.

(** The calendar-date strings.  [getCalendarDateString] of [../services]
    renders the local calendar date of an instant; [sameDate] is [===]
    on these strings. *)
Variable DateString : Type.
Variable sameDate : DateString -> DateString -> bool.
Variable getCalendarDateString : Z -> DateString.

(** [spread] is [{...event}] with [start] and [end] as the element has
    them; the other fields are those [EventSegment] adds. *)
Record EventSegment : Type := mkSegment {
  spread : Event;
  originalEvent : option Event;
  segmentDate : DateString;
  isEventSegment : bool;
  dayType : option DayType
}.

(** [pageDates.includes(d)] *)
Definition includes (pageDates : list DateString) (d : DateString) : bool :=
  existsb (sameDate d) pageDates.

(** The element pushed for the day [currentDate] of a multi-day event. *)
Definition daySegment (event : Event) (eventStart eventEnd : Z)
    (endDateString : DateString) (currentDate : Z) (dayCount : nat)
    (dateString : DateString) : EventSegment :=
  let segmentStartEnd :=
    if (dayCount =? 0)%nat then
      (eventStart, LocalTime.endOfDay currentDate)
    else if sameDate (getCalendarDateString currentDate) endDateString then
      (LocalTime.startOfDay currentDate, eventEnd)
    else
      (LocalTime.startOfDay currentDate, LocalTime.endOfDay currentDate) in
  {| spread := {| start := Some (fst segmentStartEnd);
                  end_ := Some (snd segmentStartEnd);
                  props := props event |};
     originalEvent := Some event;
     segmentDate := dateString;
     isEventSegment := true;
     dayType :=
       Some (if (dayCount =? 0)%nat then DayStart
             else if sameDate (getCalendarDateString currentDate) endDateString
                  then DayEnd
                  else DayMiddle) |}.

(** The [while (currentDate <= endDateOnly)] loop. *)
Equations? segmentDays (event : Event) (eventStart eventEnd : Z)
    (endDateString : DateString) (endDateOnly : Z)
    (pageDates : list DateString)
    (currentDate : Z) (dayCount : nat) (segments : list EventSegment)
    : list EventSegment
    by wf (Z.to_nat ((endDateOnly - currentDate) / LocalTime.msPerDay + 1)) lt :=
  segmentDays event eventStart eventEnd endDateString endDateOnly pageDates
              currentDate dayCount segments
    with Z_le_gt_dec currentDate endDateOnly => {
    | left _ =>
        let dateString := getCalendarDateString currentDate in
        let segments' :=
          if includes pageDates dateString
          then segments ++ [daySegment event eventStart eventEnd
                              endDateString currentDate dayCount dateString]
          else segments in
        segmentDays event eventStart eventEnd endDateString endDateOnly
          pageDates (LocalTime.nextDay currentDate) (S dayCount) segments';
    | right _ => segments }.
Proof.
  unfold LocalTime.nextDay.
  replace (endDateOnly - (currentDate + LocalTime.msPerDay))
    with (endDateOnly - currentDate + (-1) * LocalTime.msPerDay) by lia.
  rewrite Z.div_add by discriminate.
  assert (0 <= (endDateOnly - currentDate) / LocalTime.msPerDay)
    by (apply Z.div_pos; [lia | reflexivity]).
  lia.
Qed.

(** The callback of [events.forEach]: what one event adds to
    [segments]. *)
Definition segmentEvent (pageDates : list DateString)
    (segments : list EventSegment) (event : Event) : list EventSegment :=
  match start event, end_ event with
  | Some eventStart, Some eventEnd =>
      let startDate := eventStart in
      let endDate := eventEnd in
      let startDateString := getCalendarDateString startDate in
      let endDateString := getCalendarDateString endDate in
      if sameDate startDateString endDateString then
        if includes pageDates startDateString
        then segments ++ [{| spread := event;
                             originalEvent := None;
                             segmentDate := startDateString;
                             isEventSegment := false;
                             dayType := None |}]
        else segments
      else
        let currentDate := LocalTime.startOfDay startDate in
        let endDateOnly := LocalTime.startOfDay endDate in
        segmentDays event eventStart eventEnd endDateString endDateOnly
          pageDates currentDate 0%nat segments
  | _, _ => segments
  end.

Definition createEventSegments (events : list Event)
    (pageDates : list DateString) : list EventSegment :=
  fold_left (segmentEvent pageDates) events [].

(** What one turn of the loop pushes. *)
Definition dayOutput (event : Event) (eventStart eventEnd : Z)
    (endDateString : DateString) (pageDates : list DateString)
    (currentDate : Z) (dayCount : nat) : list EventSegment :=
  if includes pageDates (getCalendarDateString currentDate)
  then [daySegment event eventStart eventEnd endDateString currentDate
          dayCount (getCalendarDateString currentDate)]
  else [].

(** *** The span of a multi-day event, as the specification words it *)

(** One instant, the midnight, for each of the [n] calendar days from the
    day of [t] on. *)
Definition daysFrom (t : Z) (n : nat) : list Z :=
  map (fun k => LocalTime.startOfDay t + Z.of_nat k * LocalTime.msPerDay) (seq 0 n).

(** The calendar days [D0..Dn] of an event from [s] to [e], ends
    included. *)
Definition daySpan (s e : Z) : list Z :=
  daysFrom s (Z.to_nat (e / LocalTime.msPerDay - s / LocalTime.msPerDay + 1)).

End WithDates.

End Utils.

(** ** Sample inputs *)

Module Samples.

Local Open Scope Z_scope.

(** An instant of the sample day, and of the days around it. *)
Definition at_ (hours minutes : Z) : Z := hours * LocalTime.msPerHour + minutes * 60000.
Definition onDay (day hours minutes : Z) : Z :=
  day * LocalTime.msPerDay + at_ hours minutes.

Definition meeting (from to : Timestamp.t) : Packer.Event :=
  Packer.mkEvent from (Some to) [].

(** a timestamp string of the sample day, with the instant it denotes *)
Definition clock (text : string) (hours minutes : Z) : Timestamp.t :=
  Timestamp.Text text (at_ hours minutes).

Definition noOptions : Packer.PopulateOptions :=
  Packer.mkPopulateOptions None None None None None.

(** a phone of 390 points with the default right edge spacing *)
Definition phoneWidth : Q := 390.

(** 09:00-10:00, 09:30-10:30 and 10:00-11:00 *)
Definition morning : list Packer.Event :=
  [ meeting (clock "1970-01-01 09:00:00" 9 0) (clock "1970-01-01 10:00:00" 10 0);
    meeting (clock "1970-01-01 09:30:00" 9 30) (clock "1970-01-01 10:30:00" 10 30);
    meeting (clock "1970-01-01 10:00:00" 10 0) (clock "1970-01-01 11:00:00" 11 0) ].



(** A day as the segmenter hands it over: two events of the day with the
    caller's timestamp strings, 09:00-10:00 and 09:30-11:30, and between
    them in the input the last piece, 00:00-01:30, of an event that began
    the day before, with the [Date] objects the segmenter wrote. *)
Definition call : Packer.Event :=
  meeting (clock "1970-01-01 09:00:00" 9 0) (clock "1970-01-01 10:00:00" 10 0).
Definition lastPiece : Packer.Event :=
  meeting (Timestamp.DateObject (at_ 0 0)) (Timestamp.DateObject (at_ 1 30)).
Definition review : Packer.Event :=
  meeting (clock "1970-01-01 09:30:00" 9 30) (clock "1970-01-01 11:30:00" 11 30).
Definition mixedDay : list Packer.Event := [call; lastPiece; review].



(** Unavailable hours. *)
Definition fullDay : Blocks.UnavailableHoursOptions :=
  Blocks.mkOptions (Some 100%Q) (Some 0%Q) (Some 24%Q).

Definition workDay : Blocks.UnavailableHoursOptions :=
  Blocks.mkOptions (Some 100%Q) (Some 8%Q) (Some 18%Q).

Definition upsideDown : Blocks.UnavailableHoursOptions :=
  Blocks.mkOptions (Some (-100)%Q) (Some 8%Q) (Some 18%Q).

Definition night : Blocks.UnavailableHours := Blocks.mkHours 1 5.
Definition pastMidnight : Blocks.UnavailableHours := Blocks.mkHours 23 26.
Definition inverted : Blocks.UnavailableHours := Blocks.mkHours 12 9.

(** Calendar dates rendered as day numbers, for the sample runs of the
    segmenter. *)
Definition dayNumber (t : Z) : Z := t / LocalTime.msPerDay.

(** day 1 10:00 to day 3 14:00 *)
Definition conference : Utils.Event :=
  Utils.mkEvent (Some (onDay 1 10 0)) (Some (onDay 3 14 0)) [].

Definition lunch : Utils.Event :=
  Utils.mkEvent (Some (onDay 2 12 0)) (Some (onDay 2 13 0)) [].

Definition draft : Utils.Event :=
  Utils.mkEvent None (Some (onDay 2 13 0)) [].

End Samples.

(** * Properties of the timestamps *)

Module TimestampFacts.



(** Two [Date] objects compare as their instants do. *)
Lemma dates_agree a b :
  Timestamp.agree (Timestamp.DateObject a) (Timestamp.DateObject b).
Proof. split; reflexivity. Qed.

End TimestampFacts.

(** * Properties of the packer *)

Module PackerFacts.
Import Packer.
Local Open Scope Z_scope.

Ltac bools :=
  repeat match goal with
  | H : (_ <? _) = true |- _ => apply Z.ltb_lt in H
  | H : (_ <? _) = false |- _ => apply Z.ltb_ge in H
  | H : (_ <=? _) = true |- _ => apply Z.leb_le in H
  | H : (_ <=? _) = false |- _ => apply Z.leb_gt in H
  | H : (_ >? _) = true |- _ => rewrite Z.gtb_ltb in H
  | H : (_ >? _) = false |- _ => rewrite Z.gtb_ltb in H
  | H : (_ >=? _) = true |- _ => rewrite Z.geb_leb in H
  | H : (_ >=? _) = false |- _ => rewrite Z.geb_leb in H
  | H : _ && _ = true |- _ => apply andb_true_iff in H; destruct H
  | H : _ && _ = false |- _ => apply andb_false_iff in H; destruct H
  | H : negb _ = true |- _ => apply negb_true_iff in H
  | H : negb _ = false |- _ => apply negb_false_iff in H
  end.

Lemma sortInsert_perm x l : Permutation (x :: l) (sortInsert x l).
Proof.
  induction l as [|y l IH]; simpl; [reflexivity|].
  destruct (compareEvents (event x) (event y) <=? 0); [reflexivity|].
  rewrite perm_swap. constructor. exact IH.
Qed.

Lemma sortEvents_perm l : Permutation l (sortEvents l).
Proof.
  induction l as [|x l IH]; simpl; [constructor|].
  rewrite <- sortInsert_perm. constructor. exact IH.
Qed.

(** A list has one arrangement at most that an antisymmetric relation
    accepts. *)
Lemma sorted_unique {A} (R : A -> A -> Prop) (l1 l2 : list A) :
  (forall a b, In a l1 -> In b l1 -> R a b -> R b a -> a = b) ->
  StronglySorted R l1 -> StronglySorted R l2 -> Permutation l1 l2 -> l1 = l2.
Proof.
  revert l2. induction l1 as [|a l1 IH]; intros l2 Hanti S1 S2 P.
  - apply Permutation_nil in P. subst. reflexivity.
  - destruct l2 as [|b l2];
      [apply Permutation_sym, Permutation_nil in P; discriminate|].
    inversion S1 as [|? ? S1' F1]; subst.
    inversion S2 as [|? ? S2' F2]; subst.
    rewrite Forall_forall in F1, F2.
    assert (E : a = b).
    { assert (Ha : In a (b :: l2))
        by (apply (Permutation_in _ P); left; reflexivity).
      assert (Hb : In b (a :: l1))
        by (apply (Permutation_in _ (Permutation_sym P)); left; reflexivity).
      destruct Ha as [Ha|Ha]; [symmetry; exact Ha|].
      destruct Hb as [Hb|Hb]; [exact Hb|].
      apply Hanti; [left; reflexivity | right; exact Hb | apply F1; exact Hb
                   | apply F2; exact Ha]. }
    subst b. f_equal. apply Permutation_cons_inv in P.
    apply IH; auto.
    intros x y Hx Hy. apply Hanti; right; assumption.
Qed.

Lemma entries_snd {A} (xs : list A) : map snd (JS.entries xs) = xs.
Proof.
  unfold JS.entries. generalize 0%nat.
  induction xs as [|x xs IH]; intros n; simpl; [reflexivity|].
  rewrite IH. reflexivity.
Qed.


Lemma indexEvents_events evs : map event (indexEvents evs) = evs.
Proof.
  unfold indexEvents. rewrite map_map.
  rewrite <- (entries_snd evs) at 2.
  apply map_ext. intros [i e]. reflexivity.
Qed.

Lemma placeEvent_members ev cols col e :
  In col (placeEvent ev cols) -> In e col ->
  e = ev \/ exists col', In col' cols /\ In e col'.
Proof.
  revert col. induction cols as [|c cols IH]; simpl; intros col Hc He.
  - destruct Hc as [<-|[]]. destruct He as [<-|[]]. left; reflexivity.
  - destruct (negb (hasCollision (event (lastOf c ev)) (event ev))).
    + destruct Hc as [<-|Hc].
      * apply in_app_or in He. destruct He as [He|[<-|[]]]; [|left; reflexivity].
        right. exists c. split; [left; reflexivity | exact He].
      * right. exists col. split; [right; exact Hc | exact He].
    + destruct Hc as [<-|Hc].
      * right. exists c. split; [left; reflexivity | exact He].
      * destruct (IH _ Hc He) as [->|[col' [H1 H2]]]; [left; reflexivity|].
        right. exists col'. split; [right; exact H1 | exact H2].
Qed.

Lemma recordGroup_eq c (g : list (list Column)) : recordGroup c g = g ++ [c].
Proof. reflexivity. Qed.

Lemma loopStep_cases {A} (flush : list Column -> A -> A) st ev :
  (columns (loopStep flush st ev) = placeEvent ev (columns st) /\
   calculated (loopStep flush st ev) = calculated st) \/
  (columns (loopStep flush st ev) = placeEvent ev [] /\
   calculated (loopStep flush st ev) = flush (columns st) (calculated st)).
Proof.
  unfold loopStep. destruct (lastEnd st) as [le|]; [|left; split; reflexivity].
  destruct (Timestamp.ge (Some (start (event ev))) le);
    [right | left]; split; reflexivity.
Qed.

(** The flush action is the only place the loop touches its accumulator:
    the rectangles of [populateEvents] are those of the recorded groups. *)
Lemma loop_simulation sw opts rest :
  forall (st : LoopState (list PackedEvent))
         (gt : LoopState (list (list Column))),
    lastEnd st = lastEnd gt -> columns st = columns gt ->
    calculated st = flat_map (fun g => packedGroup sw g opts) (calculated gt) ->
    let st' := fold_left (loopStep (fun c acc =>
                 packOverlappingEventGroup sw c acc opts)) rest st in
    let gt' := fold_left (loopStep recordGroup) rest gt in
    lastEnd st' = lastEnd gt' /\ columns st' = columns gt' /\
    calculated st' = flat_map (fun g => packedGroup sw g opts) (calculated gt').
Proof.
  induction rest as [|ev rest IH]; intros st gt H1 H2 H3; simpl; [auto|].
  destruct st as [l1 c1 a1], gt as [l2 c2 a2].
  cbn [lastEnd columns calculated] in H1, H2, H3. subst l2 c2.
  apply IH; unfold loopStep; cbn [lastEnd columns calculated];
    destruct l1 as [le|];
    try destruct (Timestamp.ge (Some (start (event ev))) le);
    cbn [lastEnd columns calculated]; auto.
  rewrite recordGroup_eq. unfold packOverlappingEventGroup.
  rewrite flat_map_app, H3. cbn [flat_map]. rewrite app_nil_r. reflexivity.
Qed.

Lemma populateEventsOf_groups sw sorted opts :
  populateEventsOf sw sorted opts =
  flat_map (fun g => packedGroup sw g opts) (flushedGroupsOf sorted).
Proof.
  unfold populateEventsOf, flushedGroupsOf, populateSorted, runLoop.
  pose proof (@loop_simulation sw opts sorted
              {| lastEnd := None; columns := []; calculated := [] |}
              {| lastEnd := None; columns := []; calculated := [] |}
              eq_refl eq_refl eq_refl) as H.
  cbv zeta in *. destruct H as [_ [H2 H3]].
  rewrite H2.
  destruct (0 <? length _)%nat; [|exact H3].
  rewrite recordGroup_eq, flat_map_app. cbn [flat_map].
  rewrite app_nil_r, <- H3. reflexivity.
Qed.

Lemma populateEvents_groups sw evs opts :
  populateEvents sw evs opts =
  flat_map (fun g => packedGroup sw g opts) (flushedGroups evs).
Proof. apply populateEventsOf_groups. Qed.

(** *** A column is never empty *)

Lemma placeEvent_nonempty ev cols :
  Forall (fun col => col <> []) cols ->
  Forall (fun col => col <> []) (placeEvent ev cols).
Proof.
  induction 1 as [|c cols Hc Hcs IH]; simpl.
  - constructor; [discriminate | constructor].
  - destruct (negb (hasCollision (event (lastOf c ev)) (event ev))).
    + constructor; [|exact Hcs]. destruct c; discriminate.
    + constructor; assumption.
Qed.

Lemma columns_nonempty {A} (flush : list Column -> A -> A) rest :
  forall st : LoopState A,
    Forall (fun col => col <> []) (columns st) ->
    Forall (fun col => col <> [])
           (columns (fold_left (loopStep flush) rest st)).
Proof.
  induction rest as [|ev rest IH]; intros st H; simpl; [exact H|].
  apply IH.
  destruct (loopStep_cases flush st ev) as [[Ec _]|[Ec _]]; rewrite Ec;
    apply placeEvent_nonempty; [exact H | constructor].
Qed.

Lemma lastOf_member col ev : col <> [] -> In (lastOf col ev) col.
Proof.
  unfold lastOf. induction col as [|x col IH]; intros H; [contradiction|].
  destruct col as [|y col]; [left; reflexivity|].
  right. apply IH. discriminate.
Qed.

(** *** Every event is packed exactly once *)

Lemma placeEvent_perm ev cols :
  Permutation (concat (placeEvent ev cols)) (ev :: concat cols).
Proof.
  induction cols as [|c cols IH]; simpl; [reflexivity|].
  destruct (negb (hasCollision (event (lastOf c ev)) (event ev))); simpl.
  - rewrite <- app_assoc. simpl. symmetry. apply Permutation_middle.
  - rewrite IH. symmetry. apply Permutation_middle.
Qed.

Lemma loop_perm rest :
  forall st : LoopState (list (list Column)),
    let st' := fold_left (loopStep recordGroup) rest st in
    Permutation (concat (concat (calculated st')) ++ concat (columns st'))
                (concat (concat (calculated st)) ++ concat (columns st) ++ rest).
Proof.
  induction rest as [|ev rest IH]; intros st; simpl.
  - rewrite app_nil_r. reflexivity.
  - rewrite IH.
    destruct (loopStep_cases recordGroup st ev) as [[Ec Ea]|[Ec Ea]];
      rewrite Ec, Ea, ?recordGroup_eq, ?concat_app; simpl;
      rewrite ?app_nil_r, <- ?app_assoc.
    + apply Permutation_app_head. rewrite placeEvent_perm.
      apply Permutation_middle.
    + reflexivity.
Qed.

Lemma flushedGroupsOf_perm sorted :
  Permutation (concat (concat (flushedGroupsOf sorted))) sorted.
Proof.
  unfold flushedGroupsOf, populateSorted, runLoop.
  pose proof (loop_perm sorted
                {| lastEnd := None; columns := []; calculated := [] |}) as H.
  cbv zeta in H. simpl in H.
  destruct (0 <? length _)%nat eqn:L.
  - rewrite recordGroup_eq, concat_app. simpl.
    rewrite app_nil_r, concat_app. exact H.
  - apply Nat.ltb_ge in L.
    destruct (columns _) as [|c cs]; [|simpl in L; lia].
    simpl in H. rewrite app_nil_r in H. exact H.
Qed.

Lemma flushedGroups_perm evs :
  Permutation (concat (concat (flushedGroups evs))) (indexEvents evs).
Proof.
  unfold flushedGroups. rewrite flushedGroupsOf_perm.
  symmetry. apply sortEvents_perm.
Qed.









Local Open Scope Q_scope.





(** *** Horizontal geometry of a group *)










Local Close Scope Q_scope.

(** *** Stacking order inside a group *)








(** *** Timestamps that compare as their instants do *)

Ltac ends :=
  repeat match goal with
  | H : wellFormed ?e |- _ =>
      unfold wellFormed in H;
      let t := fresh "t" in
      let E := fresh "E" in
      destruct (endInstant e) as [t|] eqn:E; [| contradiction]
  end.

Lemma getEventDuration_instants e :
  getEventDuration e =
  match endInstant e with
  | Some t => Some (t - startInstant e)
  | None => None
  end.
Proof.
  unfold getEventDuration, endInstant, startInstant.
  destruct (end_ e); reflexivity.
Qed.

Lemma start_stamp e : In (start e) (stamps e).
Proof. left. reflexivity. Qed.

Lemma end_stamp e t : end_ e = Some t -> In t (stamps e).
Proof. intros E. unfold stamps. rewrite E. right. left. reflexivity. Qed.

Lemma lt_start_start a b :
  comparable a b ->
  Timestamp.lt (Some (start a)) (Some (start b))
  = (startInstant a <? startInstant b).
Proof. intros H. apply (H _ _ (start_stamp a) (start_stamp b)). Qed.

Lemma lt_start_end a b :
  comparable a b ->
  Timestamp.lt (Some (start a)) (end_ b)
  = JS.lt (Some (startInstant a)) (endInstant b).
Proof.
  intros H. unfold endInstant. destruct (end_ b) as [t|] eqn:E.
  - apply (H _ _ (start_stamp a) (end_stamp b E)).
  - destruct (start a); reflexivity.
Qed.

Lemma lt_end_start a b :
  comparable a b ->
  Timestamp.lt (end_ a) (Some (start b))
  = JS.lt (endInstant a) (Some (startInstant b)).
Proof.
  intros H. unfold endInstant. destruct (end_ a) as [t|] eqn:E.
  - apply (H _ _ (end_stamp a E) (start_stamp b)).
  - reflexivity.
Qed.

Lemma lt_end_end a b :
  comparable a b ->
  Timestamp.lt (end_ a) (end_ b) = JS.lt (endInstant a) (endInstant b).
Proof.
  intros H. unfold endInstant.
  destruct (end_ a) as [t|] eqn:Ea; [|reflexivity].
  destruct (end_ b) as [u|] eqn:Eb.
  - apply (H _ _ (end_stamp a Ea) (end_stamp b Eb)).
  - destruct t; reflexivity.
Qed.

(** On comparable events the collision test is the one on the instants. *)
Lemma hasCollision_comparable a b :
  comparable a b -> comparable b a -> hasCollision a b = collide a b.
Proof.
  intros Hab Hba. unfold hasCollision, collide, Timestamp.gt, JS.gt.
  rewrite (lt_start_end Hba), (lt_start_end Hab). reflexivity.
Qed.

(** On comparable events the comparator is the one on the instants. *)
Lemma compareEvents_comparable a b :
  comparable a b -> comparable b a -> compareEvents a b = compareInstants a b.
Proof.
  intros Hab Hba. unfold compareEvents, compareInstants, Timestamp.gt, JS.gt.
  rewrite (lt_start_start Hab), (lt_start_start Hba),
          (lt_end_end Hab), (lt_end_end Hba).
  reflexivity.
Qed.

Lemma compare_nonpos a b :
  wellFormed a -> wellFormed b -> compareInstants a b <= 0 -> precedes a b.
Proof.
  intros Ha Hb. unfold compareInstants, precedes, JS.gt.
  rewrite !getEventDuration_instants. ends. simpl.
  destruct (startInstant a <? startInstant b) eqn:L1; bools;
    [intros _; left; exact L1|].
  destruct (startInstant b <? startInstant a) eqn:L2; bools; [lia|].
  destruct (t0 - startInstant a <? t - startInstant b) eqn:L3; bools;
    [intros _; right; split; [lia | apply Z.leb_le; lia]|].
  destruct (t - startInstant b <? t0 - startInstant a) eqn:L4; bools; [lia|].
  intros _. right. split; [lia | apply Z.leb_le; lia].
Qed.

Lemma compare_pos a b :
  wellFormed a -> wellFormed b -> 0 < compareInstants a b -> precedes b a.
Proof.
  intros Ha Hb. unfold compareInstants, precedes, JS.gt.
  rewrite !getEventDuration_instants. ends. simpl.
  destruct (startInstant a <? startInstant b) eqn:L1; bools; [lia|].
  destruct (startInstant b <? startInstant a) eqn:L2; bools;
    [intros _; left; exact L2|].
  destruct (t0 - startInstant a <? t - startInstant b) eqn:L3; bools; [lia|].
  destruct (t - startInstant b <? t0 - startInstant a) eqn:L4; bools;
    [intros _; right; split; [lia | apply Z.leb_le; lia]|].
  destruct (t0 <? t) eqn:L5; bools; [lia|].
  destruct (t <? t0) eqn:L6; bools; lia.
Qed.

Lemma precedes_trans a b c :
  wellFormed a -> wellFormed b -> wellFormed c ->
  precedes a b -> precedes b c -> precedes a c.
Proof.
  intros Ha Hb Hc. unfold precedes. ends. simpl.
  intros [H1|[H1 H1']] [H2|[H2 H2']]; bools; try (left; lia).
  right. split; [lia | apply Z.leb_le; lia].
Qed.

Lemma precedes_start a b : precedes a b -> startInstant a <= startInstant b.
Proof. unfold precedes. lia. Qed.

Lemma free_last_endsBefore l ev :
  wellFormed (event l) -> wellFormed (event ev) -> precedesP l ev ->
  collide (event l) (event ev) = false -> endsBefore l ev.
Proof.
  unfold precedesP, precedes, endsBefore, collide, JS.gt.
  intros Hl He. ends. simpl. intros P C. apply Z.leb_le.
  bools; destruct P as [P|[P P']]; bools; lia.
Qed.

Lemma endsBefore_later a b c :
  endsBefore a b -> startInstant (event b) <= startInstant (event c) ->
  endsBefore a c.
Proof.
  unfold endsBefore. destruct (endInstant (event a)); simpl; [|discriminate].
  intros H L. bools. apply Z.leb_le. lia.
Qed.

Lemma endsBefore_no_collision a b :
  endsBefore a b ->
  collide (event a) (event b) = false /\
  collide (event b) (event a) = false.
Proof.
  unfold endsBefore, collide, JS.gt.
  destruct (endInstant (event a)) as [ta|]; simpl; [|discriminate].
  intros H. bools. split.
  - apply andb_false_iff. left. apply Z.ltb_ge. lia.
  - apply andb_false_iff. right. apply Z.ltb_ge. lia.
Qed.

Lemma chain_free col i j a b :
  chain col -> (i < j)%nat ->
  nth_error col i = Some a -> nth_error col j = Some b ->
  endsBefore a b.
Proof.
  intros Hc. revert i j. induction Hc as [|x col Hc IH Hx]; intros i j Hij Ha Hb.
  - destruct i; discriminate.
  - destruct j as [|j]; [lia|]. simpl in Hb.
    destruct i as [|i]; simpl in Ha.
    + injection Ha as ->. rewrite Forall_forall in Hx.
      apply Hx. eapply nth_error_In; eauto.
    + apply (IH i j); auto. lia.
Qed.

Lemma indexEvents_usable evs :
  Forall wellFormed evs -> Forall (usable evs) (indexEvents evs).
Proof.
  intros H. apply Forall_forall. intros x Hx.
  assert (Hin : In (event x) evs).
  { rewrite <- (indexEvents_events evs). apply in_map. exact Hx. }
  split; [|exact Hin].
  rewrite Forall_forall in H. apply H. exact Hin.
Qed.

Section Comparable.

Variable evs : list Event.
Hypothesis evs_comparable : allComparable evs.

Lemma usable_collision a b :
  usable evs a -> usable evs b ->
  hasCollision (event a) (event b) = collide (event a) (event b).
Proof.
  intros [_ Ha] [_ Hb].
  apply hasCollision_comparable; apply evs_comparable; assumption.
Qed.

Lemma usable_compare a b :
  usable evs a -> usable evs b ->
  compareEvents (event a) (event b) = compareInstants (event a) (event b).
Proof.
  intros [_ Ha] [_ Hb].
  apply compareEvents_comparable; apply evs_comparable; assumption.
Qed.

Lemma sortInsert_sorted x l :
  usable evs x -> Forall (usable evs) l ->
  StronglySorted precedesP l -> StronglySorted precedesP (sortInsert x l).
Proof.
  intros Hx Hl Hs. induction Hs as [|y l Hs IH Hy]; simpl.
  - repeat constructor.
  - inversion Hl as [|? ? Wy Wl]; subst.
    rewrite (usable_compare Hx Wy).
    destruct (compareInstants (event x) (event y) <=? 0) eqn:C; bools.
    + assert (Pxy : precedesP x y)
        by (apply compare_nonpos; [apply Hx | apply Wy | exact C]).
      constructor; [constructor; assumption|].
      constructor; [exact Pxy|].
      rewrite Forall_forall in *. intros z Hz.
      apply precedes_trans with (event y);
        [apply Hx | apply Wy | apply (Wl z Hz) | exact Pxy | apply Hy; exact Hz].
    + constructor; [apply IH; exact Wl|].
      apply Permutation_Forall with (x :: l); [apply sortInsert_perm|].
      constructor; [|exact Hy].
      apply compare_pos; [apply Hx | apply Wy | lia].
Qed.

Lemma sortEvents_sorted l :
  Forall (usable evs) l -> StronglySorted precedesP (sortEvents l).
Proof.
  induction 1 as [|x l Hx Hl IH]; simpl; [constructor|].
  apply sortInsert_sorted; auto.
  apply Permutation_Forall with l; [apply sortEvents_perm | exact Hl].
Qed.

Lemma chain_snoc col ev :
  chain col -> usable evs ev ->
  (forall e, In e col -> usable evs e /\ precedesP e ev) ->
  (col <> [] -> hasCollision (event (last col ev)) (event ev) = false) ->
  chain (col ++ [ev]).
Proof.
  intros Hc Hev. induction Hc as [|a col Hc IH Ha]; intros Hin Hfree; simpl.
  - repeat constructor.
  - assert (Hin' : forall e, In e col -> usable evs e /\ precedesP e ev)
      by (intros e He; apply Hin; right; exact He).
    destruct (Hin a (or_introl eq_refl)) as [Wa Pa].
    destruct col as [|b col].
    + simpl. repeat constructor.
      apply free_last_endsBefore; [apply Wa | apply Hev | exact Pa |].
      rewrite <- (usable_collision Wa Hev).
      apply Hfree. discriminate.
    + assert (Hlast : hasCollision (event (last (b :: col) ev)) (event ev) = false)
        by (apply Hfree; discriminate).
      constructor; [apply IH; auto|].
      apply Forall_app. split; [exact Ha|].
      constructor; [|constructor].
      assert (Hl : In (last (b :: col) ev) (b :: col)).
      { clear. generalize b. induction col as [|c col IHc]; intros b0.
        - left. reflexivity.
        - right. apply (IHc c). }
      rewrite Forall_forall in Ha.
      apply endsBefore_later with (last (b :: col) ev); [apply Ha; exact Hl|].
      apply precedes_start. apply Hin'. exact Hl.
Qed.

Lemma placeEvent_chain ev cols :
  usable evs ev -> Forall chain cols ->
  (forall col e, In col cols -> In e col -> usable evs e /\ precedesP e ev) ->
  Forall chain (placeEvent ev cols).
Proof.
  intros Hev Hc. induction Hc as [|c cols Hc Hcs IH]; intros Hin; simpl.
  - repeat constructor.
  - destruct (negb (hasCollision (event (lastOf c ev)) (event ev))) eqn:F; bools.
    + constructor; [|exact Hcs].
      apply chain_snoc; auto.
      intros e He. apply (Hin c e); [left; reflexivity | exact He].
    + constructor; [exact Hc|].
      apply IH. intros col e H1 H2. apply (Hin col e); [right; exact H1 | exact H2].
Qed.

Lemma columnsReady_nil rest : columnsReady evs [] rest.
Proof. split; [constructor | intros col e []]. Qed.

Lemma columnsReady_place ev rest cols :
  usable evs ev -> Forall (precedesP ev) rest ->
  columnsReady evs cols (ev :: rest) ->
  columnsReady evs (placeEvent ev cols) rest.
Proof.
  intros Wev Pev [Hc Hin]. split.
  - apply placeEvent_chain; auto.
    intros col e H1 H2. destruct (Hin col e H1 H2) as [W P].
    split; [exact W|]. inversion P; assumption.
  - intros col e H1 H2.
    destruct (placeEvent_members _ _ _ _ H1 H2) as [->|[col' [H3 H4]]].
    + split; assumption.
    + destruct (Hin col' e H3 H4) as [W P].
      split; [exact W|]. inversion P; assumption.
Qed.

Lemma loop_groups rest :
  forall st : LoopState (list (list Column)),
    Forall (usable evs) rest -> StronglySorted precedesP rest ->
    columnsReady evs (columns st) rest ->
    Forall (Forall (fun col => chain col /\ Forall (usable evs) col))
           (calculated st) ->
    let st' := fold_left (loopStep recordGroup) rest st in
    Forall (Forall (fun col => chain col /\ Forall (usable evs) col))
           (calculated st') /\
    Forall (fun col => chain col /\ Forall (usable evs) col) (columns st').
Proof.
  assert (R : forall cols rest', columnsReady evs cols rest' ->
            Forall (fun col => chain col /\ Forall (usable evs) col) cols).
  { intros cols rest' [Hc Hin]. apply Forall_forall. intros col Hcol.
    rewrite Forall_forall in Hc. split; [apply Hc; exact Hcol|].
    apply Forall_forall. intros e He. apply (Hin col e Hcol He). }
  induction rest as [|ev rest IH]; intros st Hw Hs Hr Hg; simpl.
  - split; [exact Hg | apply (R _ _ Hr)].
  - inversion Hw as [|? ? Wev Wrest]; subst.
    inversion Hs as [|? ? Srest Pev]; subst.
    destruct (loopStep_cases recordGroup st ev) as [[Ec Ea]|[Ec Ea]];
      apply IH; auto; rewrite ?Ec, ?Ea.
    + apply columnsReady_place; auto.
    + exact Hg.
    + apply columnsReady_place; auto using columnsReady_nil.
    + rewrite recordGroup_eq. apply Forall_app. split; [exact Hg|].
      constructor; [apply (R _ _ Hr) | constructor].
Qed.

(** The arrangement may be any that the comparator accepts. *)
Lemma flushedGroupsOf_chains sorted :
  Forall (usable evs) sorted ->
  StronglySorted (fun a b => compareEvents (event a) (event b) <= 0) sorted ->
  Forall (Forall (fun col => chain col /\ Forall (usable evs) col))
         (flushedGroupsOf sorted).
Proof.
  intros Hu Hs. unfold flushedGroupsOf, populateSorted, runLoop.
  assert (Hp : StronglySorted precedesP sorted).
  { clear -Hu Hs evs_comparable.
    induction Hs as [|x l Hs IH Hx]; [constructor|].
    inversion Hu as [|? ? Ux Ul]; subst.
    constructor; [apply IH; exact Ul|].
    rewrite Forall_forall in *. intros y Hy.
    apply compare_nonpos; [apply Ux | apply (Ul y Hy) |].
    rewrite <- (usable_compare Ux (Ul y Hy)). apply Hx. exact Hy. }
  destruct (@loop_groups sorted
              {| lastEnd := None; columns := []; calculated := [] |})
    as [Hg Hc]; simpl; auto using columnsReady_nil.
  destruct (0 <? length _)%nat; [|exact Hg].
  rewrite recordGroup_eq. apply Forall_app. split; [exact Hg|].
  constructor; [exact Hc | constructor].
Qed.

Lemma flushedGroups_chains :
  Forall wellFormed evs ->
  Forall (Forall (fun col => chain col /\ Forall (usable evs) col))
         (flushedGroups evs).
Proof.
  intros Hw. unfold flushedGroups, flushedGroupsOf, populateSorted, runLoop.
  pose proof (indexEvents_usable Hw) as Hi.
  destruct (@loop_groups (sortEvents (indexEvents evs))
              {| lastEnd := None; columns := []; calculated := [] |})
    as [Hg Hc]; simpl.
  - apply Permutation_Forall with (indexEvents evs);
      [apply sortEvents_perm | exact Hi].
  - apply sortEvents_sorted. exact Hi.
  - apply columnsReady_nil.
  - constructor.
  - destruct (0 <? length _)%nat; [|exact Hg].
    rewrite recordGroup_eq. apply Forall_app. split; [exact Hg|].
    constructor; [exact Hc | constructor].
Qed.

End Comparable.

(** When the timestamps of the input compare as their instants do (all of
    them [Date] objects, or all strings of one format that sorts as time
    does) and every event has start <= end, no column of a flushed group
    holds two colliding events, adjacent or not; the flushed groups are
    those the rectangles are built from. *)
Theorem comparable_events_no_collision_in_column :
  forall (sw : Q) (opts : PopulateOptions) (evs : list Event),
    Forall wellFormed evs -> allComparable evs ->
    populateEvents sw evs opts =
      flat_map (fun g => packedGroup sw g opts) (flushedGroups evs) /\
    forall group column i j a b,
      In group (flushedGroups evs) -> In column group ->
      i <> j ->
      nth_error column i = Some a -> nth_error column j = Some b ->
      hasCollision (event a) (event b) = false.
Proof.
  intros sw opts evs Hw Hcmp. split; [apply populateEvents_groups|].
  intros group column i j a b Hg Hc Hij Ha Hb.
  pose proof (flushedGroups_chains Hcmp Hw) as H.
  rewrite Forall_forall in H. specialize (H _ Hg).
  rewrite Forall_forall in H. destruct (H _ Hc) as [Hch Hu].
  rewrite Forall_forall in Hu.
  rewrite (usable_collision Hcmp (Hu a (nth_error_In _ _ Ha))
             (Hu b (nth_error_In _ _ Hb))).
  destruct (Nat.lt_total i j) as [L|[E|L]]; [| contradiction |].
  - apply (endsBefore_no_collision (chain_free Hch L Ha Hb)).
  - apply (endsBefore_no_collision (chain_free Hch L Hb Ha)).
Qed.
















Local Open Scope Q_scope.


Local Close Scope Q_scope.

(** *** The properties on the sample days *)

(** C1 fails on a day that mixes timestamp strings with the [Date] objects
    of a segment.  On [Samples.mixedDay] every event has start <= end; the
    09:00-10:00 call and the 09:30-11:30 review, both given as strings,
    collide by [hasCollision]; the piece 00:00-01:30 of a multi-day event,
    given as [Date] objects, is sorted between them and compares false
    with both.  populateEvents puts the three in one column of one group,
    and the rectangles of the call and of the review have the same left
    and width and overlap vertically. *)
Theorem mixed_timestamps_share_a_column :
  Forall wellFormed Samples.mixedDay /\
  exists a b c : PartialPackedEvent,
    flushedGroups Samples.mixedDay = [[[a; b; c]]] /\
    event a = Samples.call /\ event b = Samples.lastPiece /\
    event c = Samples.review /\
    hasCollision (event a) (event c) = true /\
    exists pa pc,
      In pa (populateEvents Samples.phoneWidth Samples.mixedDay Samples.noOptions) /\
      In pc (populateEvents Samples.phoneWidth Samples.mixedDay Samples.noOptions) /\
      source pa = a /\ source pc = c /\
      (left pa == left pc)%Q /\ (width pa == width pc)%Q /\
      (top pc < top pa + height pa)%Q /\ (top pa < top pc + height pc)%Q.
Proof.
  split.
  - repeat (constructor; [vm_compute; discriminate|]). constructor.
  - eexists. eexists. eexists.
    split; [vm_compute; reflexivity|].
    split; [reflexivity|]. split; [reflexivity|]. split; [reflexivity|].
    split; [vm_compute; reflexivity|].
    eexists. eexists.
    split; [vm_compute; left; reflexivity|].
    split; [vm_compute; right; right; left; reflexivity|].
    split; [reflexivity|]. split; [reflexivity|].
    split; [vm_compute; reflexivity|]. split; [vm_compute; reflexivity|].
    split; vm_compute; reflexivity.
Qed.

(** The order of the three events of [Samples.mixedDay] is not the
    engine's choice: the comparator orders every pair of them strictly, and
    one arrangement only is in comparator order. *)
Lemma mixed_day_order_forced :
  forall sorted,
    Permutation sorted (indexEvents Samples.mixedDay) ->
    StronglySorted inOrder sorted ->
    sorted = sortEvents (indexEvents Samples.mixedDay).
Proof.
  intros sorted Hp Hs. symmetry.
  apply (@sorted_unique _ inOrder); [| |exact Hs|].
  - intros a b Ha Hb.
    vm_compute in Ha, Hb.
    destruct Ha as [<-|[<-|[<-|[]]]]; destruct Hb as [<-|[<-|[<-|[]]]];
      intros H1 H2; try reflexivity; exfalso;
      unfold inOrder in H1, H2; vm_compute in H1, H2;
      destruct H1 as [H1|[H1 _]]; destruct H2 as [H2|[H2 _]]; discriminate.
  - let l := eval vm_compute in (sortEvents (indexEvents Samples.mixedDay)) in
    change (sortEvents (indexEvents Samples.mixedDay)) with l.
    repeat (constructor;
            [|repeat (constructor; [left; vm_compute; reflexivity|]); constructor]).
    constructor.
  - apply Permutation_trans with (indexEvents Samples.mixedDay);
      [symmetry; apply sortEvents_perm | symmetry; exact Hp].
Qed.

Lemma comparable_events_no_collision_in_column_witness :
  Forall wellFormed Samples.morning /\ allComparable Samples.morning /\
  forall group column i j a b,
    In group (flushedGroups Samples.morning) -> In column group ->
    i <> j ->
    nth_error column i = Some a -> nth_error column j = Some b ->
    hasCollision (event a) (event b) = false.
Proof.
  assert (W : Forall wellFormed Samples.morning)
    by (repeat (constructor; [vm_compute; discriminate|]); constructor).
  assert (C : allComparable Samples.morning).
  { intros a b Ha Hb x y Hx Hy.
    destruct Ha as [<-|[<-|[<-|[]]]]; destruct Hb as [<-|[<-|[<-|[]]]];
      destruct Hx as [<-|[<-|[]]]; destruct Hy as [<-|[<-|[]]];
      split; vm_compute; reflexivity. }
  split; [exact W|]. split; [exact C|].
  exact (proj2 (comparable_events_no_collision_in_column
                  Samples.phoneWidth Samples.noOptions W C)).
Defined.






End PackerFacts.

(** * Properties of the unavailable-hours blocks *)

Module BlocksFacts.
Import Blocks.
Local Open Scope Q_scope.

Lemma inRange_day x :
  inRange x 0 25 = Qle_bool 0 x && negb (Qle_bool 25 x).
Proof. reflexivity. Qed.

Lemma not_le_bool x y : negb (Qle_bool x y) = true <-> y < x.
Proof.
  rewrite negb_true_iff. split.
  - intros H. apply Qnot_le_lt. intros L.
    apply Qle_bool_iff in L. congruence.
  - intros H. destruct (Qle_bool x y) eqn:E; [|reflexivity].
    apply Qle_bool_iff in E. apply Qlt_not_le in H. contradiction.
Qed.

Lemma validb_valid hours : validb hours = true <-> valid hours.
Proof.
  unfold validb, valid.
  rewrite !andb_true_iff, !not_le_bool, !Qle_bool_iff. tauto.
Qed.

Lemma buildBlock_value hbh ds de hours :
  buildBlock hbh ds de hours =
  if validb hours
  then (Some (blockOf hbh ds de hours), [])
  else (None, [diagnostic hours]).
Proof.
  unfold buildBlock, validb, diagnostic. rewrite !inRange_day.
  destruct (Qle_bool 0 (start hours) && negb (Qle_bool 25 (start hours)));
    [|reflexivity].
  destruct (Qle_bool 0 (end_ hours) && negb (Qle_bool 25 (end_ hours)));
    [|reflexivity].
  simpl. destruct (Qle_bool (end_ hours) (start hours)); reflexivity.
Qed.

Lemma mapM_value {A B} (f : A -> Console B) l :
  mapM f l = (map (fun x => fst (f x)) l, flat_map (fun x => snd (f x)) l).
Proof.
  induction l as [|x l IH]; simpl; [reflexivity|].
  rewrite IH. unfold bind, ret. destruct (f x) as [y out]. simpl.
  rewrite app_nil_r. reflexivity.
Qed.

Lemma build_value hs hbh ds de :
  buildUnavailableHoursBlocks (Some hs)
    (Some {| hourBlockHeight := hbh; dayStart := ds; dayEnd := de |}) =
  (map (blockOf (withDefault hbh Packer.HOUR_BLOCK_HEIGHT)
                (withDefault ds 0) (withDefault de 24))
       (filter validb hs),
   map diagnostic (filter (fun h => negb (validb h)) hs)).
Proof.
  unfold buildUnavailableHoursBlocks. cbn [withDefault hourBlockHeight dayStart dayEnd].
  rewrite mapM_value. unfold bind, ret. rewrite app_nil_r. f_equal.
  - induction hs as [|h hs IH]; simpl; [reflexivity|].
    rewrite buildBlock_value. destruct (validb h); simpl; rewrite IH; reflexivity.
  - induction hs as [|h hs IH]; simpl; [reflexivity|].
    rewrite buildBlock_value. destruct (validb h); simpl; rewrite IH; reflexivity.
Qed.

(** C7. buildUnavailableHoursBlocks drops exactly the ranges whose start
    or end lies outside [0, 25) or whose start >= end, leaves one
    diagnostic on the console for each of them and goes on with the rest
    (the function is total); the blocks of the other ranges come out in
    the order of the input, one per range, neither sorted nor merged.  The
    range 23..26 with dayEnd = 24 is dropped with a diagnostic. *)
Theorem unavailable_hours_validation :
  (forall hours, validb hours = true <-> valid hours) /\
  (forall hs hbh ds de,
     buildUnavailableHoursBlocks (Some hs)
       (Some {| hourBlockHeight := hbh; dayStart := ds; dayEnd := de |}) =
     (map (blockOf (withDefault hbh Packer.HOUR_BLOCK_HEIGHT)
                   (withDefault ds 0) (withDefault de 24))
          (filter validb hs),
      map diagnostic (filter (fun h => negb (validb h)) hs))) /\
  (forall hs,
     buildUnavailableHoursBlocks (Some hs) None =
     (map (blockOf Packer.HOUR_BLOCK_HEIGHT 0 24) (filter validb hs),
      map diagnostic (filter (fun h => negb (validb h)) hs))) /\
  buildUnavailableHoursBlocks (Some [Samples.pastMidnight])
    (Some {| hourBlockHeight := None; dayStart := None; dayEnd := Some 24 |}) =
  ([], [invalidHours]).
Proof.
  split; [exact validb_valid|].
  split; [intros; apply build_value|].
  split; [|reflexivity].
  intros hs. apply (build_value hs None None None).
Qed.

Lemma build_single hours hbh ds de :
  valid hours ->
  buildUnavailableHoursBlocks (Some [hours])
    (Some {| hourBlockHeight := hbh; dayStart := ds; dayEnd := de |}) =
  ([blockOf (withDefault hbh Packer.HOUR_BLOCK_HEIGHT)
            (withDefault ds 0) (withDefault de 24) hours], []).
Proof.
  intros V. apply validb_valid in V. rewrite build_value. simpl.
  rewrite V. reflexivity.
Qed.

(** C8. A valid range (start and end in [0, 25), start < end) yields the
    block with top = ((max(start, dayStart) - dayStart) / (dayEnd -
    dayStart)) * totalDayHeight, totalDayHeight = (dayEnd - dayStart) *
    hourBlockHeight, and height = (min(end, dayEnd) - max(start,
    dayStart)) * hourBlockHeight; the quotient, and top with it, is not a
    finite number when dayEnd = dayStart.  The range 1..5 with dayStart 0,
    dayEnd 24 and hourBlockHeight 100 yields top 100 and height 400. *)
Theorem unavailable_hours_block :
  map (fun b => (option_map Qred (top b), Qred (height b)))
      (fst (buildUnavailableHoursBlocks (Some [Samples.night])
              (Some Samples.fullDay))) = [(Some 100, 400)] /\
  forall hours hbh ds de,
    valid hours ->
    let hourBlockHeight := withDefault hbh Packer.HOUR_BLOCK_HEIGHT in
    let dayStart := withDefault ds 0 in
    let dayEnd := withDefault de 24 in
    let totalDayHeight := (dayEnd - dayStart) * hourBlockHeight in
    exists block,
      buildUnavailableHoursBlocks (Some [hours])
        (Some {| Blocks.hourBlockHeight := hbh;
                 Blocks.dayStart := ds; Blocks.dayEnd := de |}) =
      ([block], []) /\
      (forall hs, In hours hs ->
         In block (fst (buildUnavailableHoursBlocks (Some hs)
           (Some {| Blocks.hourBlockHeight := hbh;
                    Blocks.dayStart := ds; Blocks.dayEnd := de |})))) /\
      height block == (Qmin (end_ hours) dayEnd - Qmax (start hours) dayStart)
                      * hourBlockHeight /\
      (~ dayEnd == dayStart ->
         exists t, top block = Some t /\
           t == (Qmax (start hours) dayStart - dayStart) / (dayEnd - dayStart)
                * totalDayHeight) /\
      (dayEnd == dayStart -> top block = None).
Proof.
  split; [vm_compute; reflexivity|].
  intros hours hbh ds de V. cbv zeta.
  eexists. split; [apply build_single; exact V|].
  split; [|split; [reflexivity|split]].
  - intros hs Hin. rewrite build_value. cbn [fst].
    apply in_map. apply filter_In. split; [exact Hin|].
    apply validb_valid. exact V.
  - intros Hne. unfold blockOf, numDiv. cbn [top].
    destruct (Qeq_bool (withDefault de 24 - withDefault ds 0) 0) eqn:E.
    + apply Qeq_bool_iff in E. exfalso. apply Hne. lra.
    + eexists. split; reflexivity.
  - intros He. unfold blockOf, numDiv. cbn [top].
    destruct (Qeq_bool (withDefault de 24 - withDefault ds 0) 0) eqn:E;
      [reflexivity|].
    apply Qeq_bool_neq in E. exfalso. apply E. lra.
Qed.


Lemma unavailable_hours_block_witness :
  valid Samples.night /\
  exists block,
    buildUnavailableHoursBlocks (Some [Samples.night]) (Some Samples.fullDay) =
    ([block], []) /\
    height block == 400 /\
    exists t, top block = Some t /\ t == 100.
Proof.
  assert (V : valid Samples.night)
    by (unfold valid; vm_compute; intuition discriminate).
  split; [exact V|].
  destruct (proj2 unavailable_hours_block Samples.night
              (Some 100) (Some 0) (Some 24) V)
    as [block [B [_ [H [T _]]]]].
  exists block. split; [exact B|].
  split; [rewrite H; vm_compute; reflexivity|].
  destruct T as [t [T1 T2]]; [vm_compute; discriminate|].
  exists t. split; [exact T1|]. rewrite T2. vm_compute. reflexivity.
Defined.

Lemma clamped_extent hours ds de :
  end_ hours <= ds \/ de <= start hours ->
  Qmin (end_ hours) de - Qmax (start hours) ds <= 0.
Proof.
  pose proof (Q.le_min_l (end_ hours) de).
  pose proof (Q.le_min_r (end_ hours) de).
  pose proof (Q.le_max_l (start hours) ds).
  pose proof (Q.le_max_r (start hours) ds).
  intros [L|L]; lra.
Qed.

(** C10, as the code has it. A range that passes validation but lies
    outside the window (end <= dayStart or start >= dayEnd) still yields a
    block; its height is (min(end, dayEnd) - max(start, dayStart)) *
    hourBlockHeight, where the clamped extent min(end, dayEnd) -
    max(start, dayStart) is zero or negative, so that the height is zero or
    negative whenever hourBlockHeight is not negative. *)
Theorem hidden_range_block :
  forall hours hbh ds de,
    valid hours ->
    let hourBlockHeight := withDefault hbh Packer.HOUR_BLOCK_HEIGHT in
    let dayStart := withDefault ds 0 in
    let dayEnd := withDefault de 24 in
    end_ hours <= dayStart \/ dayEnd <= start hours ->
    exists block,
      buildUnavailableHoursBlocks (Some [hours])
        (Some {| Blocks.hourBlockHeight := hbh;
                 Blocks.dayStart := ds; Blocks.dayEnd := de |}) =
      ([block], []) /\
      height block == (Qmin (end_ hours) dayEnd - Qmax (start hours) dayStart)
                      * hourBlockHeight /\
      Qmin (end_ hours) dayEnd - Qmax (start hours) dayStart <= 0 /\
      (0 <= hourBlockHeight -> height block <= 0).
Proof.
  intros hours hbh ds de V. cbv zeta. intros Out.
  eexists. split; [apply build_single; exact V|].
  pose proof (@clamped_extent hours _ _ Out) as E.
  split; [reflexivity|]. split; [exact E|].
  intros P. unfold blockOf. cbn [height].
  set (x := Qmin _ _ - Qmax _ _) in *. clearbody x.
  set (y := withDefault hbh Packer.HOUR_BLOCK_HEIGHT) in *. clearbody y.
  nra.
Qed.

(** C10 as worded fails for a negative hourBlockHeight: the range 1..5
    is valid and lies before a window that opens at 8, and with
    hourBlockHeight = -100 its block has the positive height 300. *)
Lemma hidden_range_block_counterexample :
  exists block,
    valid Samples.night /\
    (end_ Samples.night <= 8) /\
    buildUnavailableHoursBlocks (Some [Samples.night]) (Some Samples.upsideDown) =
    ([block], []) /\
    ~ height block <= 0.
Proof.
  eexists.
  split; [unfold valid; vm_compute; intuition discriminate|].
  split; [vm_compute; discriminate|].
  split; [reflexivity|].
  vm_compute. intros H. apply H. reflexivity.
Qed.

Lemma hidden_range_block_witness :
  valid Samples.night /\
  (end_ Samples.night <= 8 \/ 18 <= start Samples.night) /\
  exists block,
    buildUnavailableHoursBlocks (Some [Samples.night]) (Some Samples.workDay) =
    ([block], []) /\
    height block <= 0.
Proof.
  assert (V : valid Samples.night)
    by (unfold valid; vm_compute; intuition discriminate).
  assert (O : end_ Samples.night <= 8 \/ 18 <= start Samples.night)
    by (left; vm_compute; discriminate).
  split; [exact V|]. split; [exact O|].
  destruct (@hidden_range_block Samples.night (Some 100) (Some 8) (Some 18) V O)
    as [block [B [_ [_ H]]]].
  exists block. split; [exact B|].
  apply H. vm_compute. discriminate.
Defined.

End BlocksFacts.

(** * Properties of the segmenter *)

Module UtilsFacts.
Import Utils.
Local Open Scope Z_scope.

Lemma startOfDay_day t : LocalTime.startOfDay t = LocalTime.msPerDay * (t / LocalTime.msPerDay).
Proof.
  unfold LocalTime.startOfDay.
  pose proof (Z.div_mod t LocalTime.msPerDay ltac:(discriminate)). lia.
Qed.

Lemma day_of_shift t k :
  (LocalTime.startOfDay t + k * LocalTime.msPerDay) / LocalTime.msPerDay = t / LocalTime.msPerDay + k.
Proof.
  rewrite startOfDay_day, Z.div_add by discriminate.
  rewrite Z.mul_comm, Z.div_mul by discriminate. reflexivity.
Qed.

Lemma startOfDay_shift t k :
  LocalTime.startOfDay (LocalTime.startOfDay t + k * LocalTime.msPerDay)
  = LocalTime.startOfDay t + k * LocalTime.msPerDay.
Proof.
  rewrite (startOfDay_day (_ + _)), day_of_shift, startOfDay_day. lia.
Qed.

Section Dates.

Variable DateString : Type.
Variable sameDate : DateString -> DateString -> bool.
Variable getCalendarDateString : Z -> DateString.

(** [===] on date strings is equality. *)
Hypothesis sameDate_eq : forall a b, sameDate a b = true <-> a = b.

(** Two instants have the same date string exactly when they fall on the
    same local day. *)
Hypothesis date_day :
  forall t u, getCalendarDateString t = getCalendarDateString u
              <-> t / LocalTime.msPerDay = u / LocalTime.msPerDay.

Abbreviation date := getCalendarDateString.
Abbreviation segmentDays' := (segmentDays sameDate getCalendarDateString).
Abbreviation dayOutput' := (dayOutput sameDate getCalendarDateString).
Abbreviation segmentEvent' := (segmentEvent sameDate getCalendarDateString).
Abbreviation createEventSegments' :=
  (createEventSegments sameDate getCalendarDateString).
Abbreviation includes' := (includes sameDate).

Lemma segmentDays_step event s e eds edo pd cur dc segs :
  segmentDays' event s e eds edo pd cur dc segs =
  if Z_le_gt_dec cur edo
  then segmentDays' event s e eds edo pd (LocalTime.nextDay cur) (S dc)
         (segs ++ dayOutput' event s e eds pd cur dc)
  else segs.
Proof.
  rewrite segmentDays_equation_1.
  destruct (Z_le_gt_dec cur edo); [|reflexivity].
  cbn. unfold dayOutput.
  destruct (includes' pd (date cur)); [reflexivity|].
  rewrite app_nil_r. reflexivity.
Qed.


Lemma flat_map_seq_shift {B} (f : nat -> list B) n :
  flat_map f (seq 1 n) = flat_map (fun k => f (S k)) (seq 0 n).
Proof.
  rewrite <- seq_shift. generalize (seq 0 n). intros l.
  induction l as [|x l IH]; simpl; [reflexivity|]. rewrite IH. reflexivity.
Qed.

Lemma segmentDays_days event s e eds edo pd n :
  forall cur dc segs,
    edo - cur = (Z.of_nat n - 1) * LocalTime.msPerDay ->
    segmentDays' event s e eds edo pd cur dc segs =
    segs ++ flat_map
              (fun k => dayOutput' event s e eds pd
                          (cur + Z.of_nat k * LocalTime.msPerDay) (dc + k))
              (seq 0 n).
Proof.
  induction n as [|n IH]; intros cur dc segs H; rewrite segmentDays_step.
  - destruct (Z_le_gt_dec cur edo) as [L|L].
    + exfalso. change LocalTime.msPerDay with 86400000 in H. lia.
    + simpl. rewrite app_nil_r. reflexivity.
  - destruct (Z_le_gt_dec cur edo) as [L|L].
    + rewrite IH by (unfold LocalTime.nextDay; lia).
      cbn [seq flat_map]. rewrite flat_map_seq_shift, <- app_assoc.
      f_equal. f_equal.
      * rewrite Z.add_0_r, Nat.add_0_r. reflexivity.
      * apply flat_map_ext. intros k. f_equal; unfold LocalTime.nextDay; lia.
    + exfalso. change LocalTime.msPerDay with 86400000 in H. lia.
Qed.

Lemma segmentEvent_multi pd segs event s e :
  start event = Some s -> end_ event = Some e ->
  date s <> date e ->
  segmentEvent' pd segs event =
  segs ++ flat_map
            (fun k => dayOutput' event s e (date e) pd
                        (LocalTime.startOfDay s + Z.of_nat k * LocalTime.msPerDay) k)
            (seq 0 (Z.to_nat (e / LocalTime.msPerDay - s / LocalTime.msPerDay + 1))).
Proof.
  intros Hs He Hd. unfold segmentEvent. rewrite Hs, He.
  destruct (sameDate (date s) (date e)) eqn:E;
    [apply sameDate_eq in E; contradiction|].
  destruct (Z_le_gt_dec (s / LocalTime.msPerDay) (e / LocalTime.msPerDay)) as [L|L].
  - apply segmentDays_days. rewrite !startOfDay_day. lia.
  - replace (Z.to_nat _) with 0%nat by lia. simpl.
    rewrite segmentDays_step, app_nil_r.
    destruct (Z_le_gt_dec _ _) as [L'|L']; [|reflexivity].
    exfalso. rewrite !startOfDay_day in L'.
    change LocalTime.msPerDay with 86400000 in *. lia.
Qed.

Lemma segmentEvent_app pd segs event :
  segmentEvent' pd segs event = segs ++ segmentEvent' pd [] event.
Proof.
  destruct (start event) as [s|] eqn:Hs; [destruct (end_ event) as [e|] eqn:He|].
  - destruct (sameDate (date s) (date e)) eqn:E.
    + unfold segmentEvent. rewrite Hs, He, E.
      destruct (includes' pd (date s)); [reflexivity|].
      rewrite app_nil_r. reflexivity.
    + assert (Hd : date s <> date e).
      { intros Q. apply sameDate_eq in Q. congruence. }
      rewrite !(segmentEvent_multi pd _ event Hs He Hd). reflexivity.
  - unfold segmentEvent. rewrite Hs, He, app_nil_r. reflexivity.
  - unfold segmentEvent. rewrite Hs, app_nil_r. reflexivity.
Qed.

Lemma createEventSegments_flat_map events pd :
  createEventSegments' events pd = flat_map (segmentEvent' pd []) events.
Proof.
  unfold createEventSegments.
  assert (G : forall segs,
            fold_left (segmentEvent' pd) events segs
            = segs ++ flat_map (segmentEvent' pd []) events).
  { induction events as [|ev events IH]; intros segs; simpl.
    - rewrite app_nil_r. reflexivity.
    - rewrite IH, segmentEvent_app, app_assoc. reflexivity. }
  apply (G []).
Qed.

Lemma createEventSegments_position before event after pd :
  createEventSegments' (before ++ event :: after) pd =
  createEventSegments' before pd ++ createEventSegments' [event] pd
    ++ createEventSegments' after pd.
Proof.
  rewrite !createEventSegments_flat_map, flat_map_app. simpl.
  rewrite app_nil_r. reflexivity.
Qed.


Lemma includes_In pd d : includes' pd d = true <-> In d pd.
Proof.
  unfold includes. rewrite existsb_exists. split.
  - intros [x [Hx E]]. apply sameDate_eq in E. subst. exact Hx.
  - intros H. exists d. split; [exact H | apply sameDate_eq; reflexivity].
Qed.

(** The elements a multi-day event adds: one turn of the loop for each
    day of its span. *)
Lemma multi_day_output pd event s e :
  start event = Some s -> end_ event = Some e -> date s <> date e ->
  createEventSegments' [event] pd =
  flat_map
    (fun k => dayOutput' event s e (date e) pd
                (LocalTime.startOfDay s + Z.of_nat k * LocalTime.msPerDay) k)
    (seq 0 (Z.to_nat (e / LocalTime.msPerDay - s / LocalTime.msPerDay + 1))).
Proof.
  intros Hs He Hd. rewrite createEventSegments_flat_map. simpl.
  rewrite app_nil_r. apply (segmentEvent_multi pd [] event Hs He Hd).
Qed.

Lemma multi_day_In pd event s e seg :
  start event = Some s -> end_ event = Some e -> date s <> date e ->
  In seg (createEventSegments' [event] pd) <->
  exists k : nat,
    Z.of_nat k <= e / LocalTime.msPerDay - s / LocalTime.msPerDay /\
    In (date (LocalTime.startOfDay s + Z.of_nat k * LocalTime.msPerDay)) pd /\
    seg = daySegment sameDate getCalendarDateString event s e (date e)
            (LocalTime.startOfDay s + Z.of_nat k * LocalTime.msPerDay) k
            (date (LocalTime.startOfDay s + Z.of_nat k * LocalTime.msPerDay)).
Proof.
  intros Hs He Hd. rewrite (multi_day_output pd event Hs He Hd), in_flat_map.
  split.
  - intros [k [Hk Hin]]. apply in_seq in Hk. unfold dayOutput in Hin.
    destruct (includes' pd _) eqn:I; [|destruct Hin].
    destruct Hin as [<-|[]]. exists k.
    split; [lia|]. split; [apply includes_In; exact I | reflexivity].
  - intros [k [Hk [I ->]]]. exists k. split; [apply in_seq; lia|].
    unfold dayOutput. apply includes_In in I. rewrite I.
    left. reflexivity.
Qed.

Lemma span_dates pd event s e l :
  map (@segmentDate DateString)
      (flat_map
         (fun k => dayOutput' event s e (date e) pd
                     (LocalTime.startOfDay s + Z.of_nat k * LocalTime.msPerDay) k) l)
  = filter (includes' pd)
      (map date (map (fun k => LocalTime.startOfDay s + Z.of_nat k * LocalTime.msPerDay) l)).
Proof.
  induction l as [|k l IH]; simpl; [reflexivity|].
  rewrite map_app, IH. unfold dayOutput.
  destruct (includes' pd _); reflexivity.
Qed.

Lemma date_of_shift s k u :
  date (LocalTime.startOfDay s + k * LocalTime.msPerDay) = date u <->
  s / LocalTime.msPerDay + k = u / LocalTime.msPerDay.
Proof. rewrite date_day, day_of_shift. reflexivity. Qed.

(** C2. For an event with start and end on different calendar dates and
    start <= end, and any pageDates, createEventSegments emits one
    element for each calendar date of the span D0..Dn (the dates of the
    instants from start to end) that is in pageDates: the segmentDates
    are the dates of the span that pageDates includes, in order, none
    twice and none missing; each element has isEventSegment = true and
    originalEvent the untouched source event, whose other properties it
    carries.  The elements stand in the output at the place of the event
    in the input. *)
Theorem segment_coverage :
  forall (pageDates : list DateString) (event : Event) (s e : Z),
    start event = Some s -> end_ event = Some e ->
    date s <> date e -> s <= e ->
    let out := createEventSegments' [event] pageDates in
    map (@segmentDate DateString) out
      = filter (includes' pageDates) (map date (daySpan s e)) /\
    NoDup (map (@segmentDate DateString) out) /\
    (forall d, In d (map (@segmentDate DateString) out) <->
               In d pageDates /\ exists t, s <= t <= e /\ d = date t) /\
    (forall seg, In seg out ->
       isEventSegment seg = true /\ originalEvent seg = Some event /\
       props (spread seg) = props event) /\
    (forall before after,
       createEventSegments' (before ++ event :: after) pageDates =
       createEventSegments' before pageDates ++ out
         ++ createEventSegments' after pageDates).
Proof.
  intros pd event s e Hs He Hd Hle. cbv zeta.
  assert (Hdates :
    map (@segmentDate DateString) (createEventSegments' [event] pd)
    = filter (includes' pd) (map date (daySpan s e))).
  { rewrite (multi_day_output pd event Hs He Hd). apply span_dates. }
  assert (Hdays : s / LocalTime.msPerDay <= e / LocalTime.msPerDay)
    by (apply Z.div_le_mono; [reflexivity | exact Hle]).
  split; [exact Hdates|]. split; [|split; [|split]].
  - rewrite Hdates. apply NoDup_filter.
    unfold daySpan, daysFrom. rewrite map_map.
    apply NoDup_map_NoDup_ForallPairs; [|apply seq_NoDup].
    intros i j _ _ E. apply date_of_shift in E.
    rewrite day_of_shift in E. lia.
  - intros d. rewrite Hdates, filter_In, includes_In.
    unfold daySpan, daysFrom. rewrite map_map, in_map_iff.
    split.
    + intros [[k [<- Hk]] Hpd]. split; [exact Hpd|]. apply in_seq in Hk.
      destruct k as [|k].
      * exists s. split; [lia|]. apply date_of_shift. simpl. lia.
      * exists (LocalTime.startOfDay s + Z.of_nat (S k) * LocalTime.msPerDay).
        split; [|reflexivity].
        rewrite startOfDay_day.
        pose proof (Z.div_mod s LocalTime.msPerDay ltac:(discriminate)) as Ms.
        pose proof (Z.mod_pos_bound s LocalTime.msPerDay eq_refl) as Bs.
        pose proof (Z.div_mod e LocalTime.msPerDay ltac:(discriminate)) as Me.
        pose proof (Z.mod_pos_bound e LocalTime.msPerDay eq_refl) as Be.
        change LocalTime.msPerDay with 86400000 in *. lia.
    + intros [Hpd [t [[L1 L2] ->]]]. split; [|exact Hpd].
      assert (s / LocalTime.msPerDay <= t / LocalTime.msPerDay)
        by (apply Z.div_le_mono; [reflexivity | exact L1]).
      assert (t / LocalTime.msPerDay <= e / LocalTime.msPerDay)
        by (apply Z.div_le_mono; [reflexivity | exact L2]).
      exists (Z.to_nat (t / LocalTime.msPerDay - s / LocalTime.msPerDay)).
      split; [apply date_of_shift; lia | apply in_seq; lia].
  - intros seg Hin. apply (multi_day_In pd event seg Hs He Hd) in Hin.
    destruct Hin as [k [_ [_ ->]]]. unfold daySegment.
    destruct (k =? 0)%nat; [|destruct (sameDate _ _)]; auto.
  - intros before after. apply createEventSegments_position.
Qed.


(** C3. For an event with start and end on different calendar dates:
    the element for the start date has start = the original start, end =
    23:59:59.999 of that day and dayType 'start'; the element for the end
    date has start = 00:00:00.000 of that day, end = the original end and
    dayType 'end'; every other element runs from 00:00:00.000 to
    23:59:59.999 of its day with dayType 'middle'.  With start <= end,
    the element for the start date exists when that date is in pageDates,
    and so does the element for the end date. *)
Theorem segment_boundaries :
  forall (pageDates : list DateString) (event : Event) (s e : Z),
    start event = Some s -> end_ event = Some e ->
    date s <> date e ->
    let out := createEventSegments' [event] pageDates in
    (forall seg, In seg out ->
       (segmentDate seg = date s ->
          start (spread seg) = Some s /\
          end_ (spread seg) = Some (LocalTime.startOfDay s + 86399999) /\
          dayType seg = Some DayStart) /\
       (segmentDate seg = date e ->
          start (spread seg) = Some (LocalTime.startOfDay e) /\
          end_ (spread seg) = Some e /\
          dayType seg = Some DayEnd) /\
       (segmentDate seg <> date s -> segmentDate seg <> date e ->
          exists t, segmentDate seg = date t /\
            start (spread seg) = Some (LocalTime.startOfDay t) /\
            end_ (spread seg) = Some (LocalTime.startOfDay t + 86399999) /\
            dayType seg = Some DayMiddle)) /\
    (s <= e -> In (date s) pageDates ->
       exists seg, In seg out /\ segmentDate seg = date s) /\
    (s <= e -> In (date e) pageDates ->
       exists seg, In seg out /\ segmentDate seg = date e).
Proof.
  intros pd event s e Hs He Hd. cbv zeta. split; [|split].
  - intros seg Hin. apply (multi_day_In pd event seg Hs He Hd) in Hin.
    destruct Hin as [k [Hk [_ ->]]].
    set (cur := LocalTime.startOfDay s + Z.of_nat k * LocalTime.msPerDay).
    assert (Hcur : LocalTime.startOfDay cur = cur) by apply startOfDay_shift.
    unfold daySegment. cbn [segmentDate spread start end_ dayType].
    destruct k as [|k].
    + assert (Es : date cur = date s)
        by (apply date_of_shift; simpl; lia).
      cbn [Nat.eqb fst snd]. unfold LocalTime.endOfDay. rewrite Hcur.
      split; [|split].
      * intros _. subst cur. simpl.
        rewrite Z.add_0_r. split; [reflexivity|].
        split; [f_equal; change LocalTime.msPerDay with 86400000; lia|].
        reflexivity.
      * intros E. rewrite Es in E. contradiction.
      * intros N. rewrite Es in N. contradiction.
    + assert (Ns : date cur <> date s).
      { intros E. apply date_of_shift in E. lia. }
      change (S k =? 0)%nat with false. cbv iota.
      destruct (sameDate (date cur) (date e)) eqn:Q.
      * apply sameDate_eq in Q. cbn [fst snd]. rewrite Hcur.
        split; [intros E; contradiction|].
        split; [|intros _ N; contradiction].
        intros _. split; [|split; reflexivity].
        f_equal. apply date_of_shift in Q.
        subst cur. rewrite (startOfDay_day e), <- Q, startOfDay_day. lia.
      * assert (Ne : date cur <> date e).
        { intros E. apply sameDate_eq in E. congruence. }
        cbn [fst snd]. unfold LocalTime.endOfDay. rewrite Hcur.
        split; [intros E; contradiction|].
        split; [intros E; contradiction|].
        intros _ _. exists cur. rewrite Hcur.
        split; [reflexivity|]. split; [reflexivity|].
        split; [f_equal; change LocalTime.msPerDay with 86400000; lia|].
        reflexivity.
  - intros Hle Hpd.
    assert (s / LocalTime.msPerDay <= e / LocalTime.msPerDay)
      by (apply Z.div_le_mono; [reflexivity | exact Hle]).
    assert (E0 : date (LocalTime.startOfDay s + Z.of_nat 0 * LocalTime.msPerDay) = date s)
      by (apply date_of_shift; simpl; lia).
    eexists. split.
    + apply (multi_day_In pd event _ Hs He Hd). exists 0%nat.
      split; [simpl; lia|]. split; [rewrite E0; exact Hpd | reflexivity].
    + unfold daySegment. cbn [segmentDate]. exact E0.
  - intros Hle Hpd.
    assert (s / LocalTime.msPerDay <= e / LocalTime.msPerDay)
      by (apply Z.div_le_mono; [reflexivity | exact Hle]).
    set (k := Z.to_nat (e / LocalTime.msPerDay - s / LocalTime.msPerDay)).
    assert (Ek : date (LocalTime.startOfDay s + Z.of_nat k * LocalTime.msPerDay) = date e)
      by (apply date_of_shift; subst k; lia).
    eexists. split.
    + apply (multi_day_In pd event _ Hs He Hd). exists k.
      split; [subst k; lia|]. split; [rewrite Ek; exact Hpd | reflexivity].
    + unfold daySegment. cbn [segmentDate]. exact Ek.
Qed.

(** C9. An event without start or without end adds nothing to the
    output, and that is all that happens.  An event whose start and end
    fall on the same calendar date adds exactly one element when that
    date is in pageDates and nothing otherwise: the event itself, start
    and end untouched, with that date for segmentDate and
    isEventSegment = false. *)
Theorem single_day_and_malformed :
  forall (pageDates : list DateString) (event : Event),
    (start event = None \/ end_ event = None ->
       createEventSegments' [event] pageDates = [] /\
       forall before after,
         createEventSegments' (before ++ event :: after) pageDates =
         createEventSegments' before pageDates
           ++ createEventSegments' after pageDates) /\
    (forall s e,
       start event = Some s -> end_ event = Some e -> date s = date e ->
       (In (date s) pageDates ->
          createEventSegments' [event] pageDates =
          [{| spread := event;
              originalEvent := None;
              segmentDate := date s;
              isEventSegment := false;
              dayType := None |}]) /\
       (~ In (date s) pageDates ->
          createEventSegments' [event] pageDates = [])).
Proof.
  intros pd event. split.
  - intros Hm.
    assert (E : createEventSegments' [event] pd = []).
    { unfold createEventSegments, segmentEvent. simpl.
      destruct Hm as [-> | Hm]; [reflexivity|].
      rewrite Hm. destruct (start event); reflexivity. }
    split; [exact E|]. intros before after.
    rewrite createEventSegments_position, E. reflexivity.
  - intros s e Hs He Hd.
    assert (Q : sameDate (date s) (date e) = true)
      by (apply sameDate_eq; exact Hd).
    unfold createEventSegments, segmentEvent. simpl.
    rewrite Hs, He, Q. split.
    + intros I. apply includes_In in I. rewrite I. reflexivity.
    + intros I. destruct (includes' pd (date s)) eqn:B; [|reflexivity].
      apply includes_In in B. contradiction.
Qed.

End Dates.

(** *** The properties on the sample events *)

Lemma dayNumber_day t u :
  Samples.dayNumber t = Samples.dayNumber u
  <-> t / LocalTime.msPerDay = u / LocalTime.msPerDay.
Proof. unfold Samples.dayNumber. reflexivity. Defined.

Lemma segment_coverage_witness :
  start Samples.conference = Some (Samples.onDay 1 10 0) /\
  end_ Samples.conference = Some (Samples.onDay 3 14 0) /\
  Samples.dayNumber (Samples.onDay 1 10 0)
    <> Samples.dayNumber (Samples.onDay 3 14 0) /\
  Samples.onDay 1 10 0 <= Samples.onDay 3 14 0 /\
  map (@segmentDate Z)
      (createEventSegments Z.eqb Samples.dayNumber [Samples.conference] [2; 3; 7])
  = filter (includes Z.eqb [2; 3; 7])
      (map Samples.dayNumber
         (daySpan (Samples.onDay 1 10 0) (Samples.onDay 3 14 0))).
Proof.
  assert (H1 : Samples.dayNumber (Samples.onDay 1 10 0)
               <> Samples.dayNumber (Samples.onDay 3 14 0))
    by (vm_compute; discriminate).
  assert (H2 : Samples.onDay 1 10 0 <= Samples.onDay 3 14 0)
    by (vm_compute; discriminate).
  split; [reflexivity|]. split; [reflexivity|].
  split; [exact H1|]. split; [exact H2|].
  exact (proj1 (@segment_coverage Z Z.eqb Samples.dayNumber Z.eqb_eq
                  dayNumber_day [2; 3; 7] Samples.conference
                  (Samples.onDay 1 10 0) (Samples.onDay 3 14 0)
                  eq_refl eq_refl H1 H2)).
Defined.

Lemma segment_boundaries_witness :
  start Samples.conference = Some (Samples.onDay 1 10 0) /\
  end_ Samples.conference = Some (Samples.onDay 3 14 0) /\
  Samples.dayNumber (Samples.onDay 1 10 0)
    <> Samples.dayNumber (Samples.onDay 3 14 0) /\
  exists seg,
    In seg (createEventSegments Z.eqb Samples.dayNumber
              [Samples.conference] [1; 2; 3]) /\
    segmentDate seg = Samples.dayNumber (Samples.onDay 3 14 0).
Proof.
  split; [reflexivity|]. split; [reflexivity|].
  split; [vm_compute; discriminate|].
  apply (@segment_boundaries Z Z.eqb Samples.dayNumber Z.eqb_eq dayNumber_day
           [1; 2; 3] Samples.conference
           (Samples.onDay 1 10 0) (Samples.onDay 3 14 0)).
  - reflexivity.
  - reflexivity.
  - vm_compute. discriminate.
  - vm_compute. discriminate.
  - vm_compute. tauto.
Defined.

Lemma single_day_and_malformed_witness :
  (start Samples.draft = None \/ end_ Samples.draft = None) /\
  createEventSegments Z.eqb Samples.dayNumber [Samples.draft] [1; 2; 3] = [].
Proof.
  split; [left; reflexivity|].
  apply (@single_day_and_malformed Z Z.eqb Samples.dayNumber Z.eqb_eq
           [1; 2; 3] Samples.draft).
  left. reflexivity.
Defined.

End UtilsFacts.
